(** * The Socket.io chat server (server/server.js)

    A shallow embedding of the event handlers of [server/server.js] and
    the properties of its room logs, identifiers, pagination, fan-out,
    reactions and read receipts.

    Conventions of the embedding.
    - The three module-level dictionaries [users], [messages] and
      [typingUsers] are JavaScript objects used as maps.  They are
      modelled as ordered dictionaries over their own properties
      (insertion order is what [Object.values] and [for ... in] observe).
      The per-message [reactions] object is only ever read by key and is
      a [gmap] of its own properties.  [messages] and [reactions] are
      read under names a client chooses, so their reads go on to the
      properties every object inherits from [Object.prototype]
      ([constructor], [toString], [__proto__], ...); [users] and
      [typingUsers] are only read under socket ids, which Socket.io
      generates.
    - Numbers are integers ([Z]), next to [NaN] where the code can
      produce it; [Date.now()] and
      [new Date().toISOString()] are read from the environment of each
      event.
    - A handler either returns, with the new state and the emissions it
      made in order, or throws a [TypeError] out of the handler.
    - The Socket.io adapter (which rooms each connected socket is in) is
      part of the state, so that what [socket.to(room).emit] delivers can
      be computed. *)

From stdpp Require Import base option list strings gmap sorting.
From Stdlib Require Import ZArith Lia.

(** ** JavaScript helpers *)

(** [o || d] on a value that is a string or [undefined]: the empty
    string and [undefined] are falsy. *)
Definition or_default (o : option string) (d : string) : string :=
  match o with
  | Some s => if decide (s = "") then d else s
  | None => d
  end.

(** [Array.prototype.slice(start, end)]: a negative index counts from
    the end of the array, and both are clamped to [0 .. length]. *)
Definition rel_index (len i : Z) : Z :=
  if decide (i < 0)%Z then Z.max (len + i) 0 else Z.min i len.

Definition slice {A} (l : list A) (start finish : Z) : list A :=
  let len := Z.of_nat (length l) in
  let k := rel_index len start in
  let final := rel_index len finish in
  take (Z.to_nat (final - k)) (drop (Z.to_nat k) l).

(** ** Objects used as dictionaries *)

Abbreviation obj V := (list (string * V)) (only parsing).

Section obj.
Context {V : Type}.

(** [o[k]] *)
Fixpoint obj_get (k : string) (o : obj V) : option V :=
  match o with
  | [] => None
  | (k', v) :: o' => if decide (k = k') then Some v else obj_get k o'
  end.

(** [o[k] = v]: an existing key keeps its position, a new one goes last. *)
Fixpoint obj_set (k : string) (v : V) (o : obj V) : obj V :=
  match o with
  | [] => [(k, v)]
  | (k', v') :: o' =>
      if decide (k = k') then (k, v) :: o' else (k', v') :: obj_set k v o'
  end.

(** [delete o[k]] *)
Fixpoint obj_delete (k : string) (o : obj V) : obj V :=
  match o with
  | [] => []
  | (k', v') :: o' =>
      if decide (k = k') then o' else (k', v') :: obj_delete k o'
  end.

(** [Object.values(o)] *)
Definition obj_values (o : obj V) : list V := o.*2.

(** [Object.keys(o)], the order of [for (const k in o)] *)
Definition obj_keys (o : obj V) : list string := o.*1.
End obj.

(** ** Properties inherited from [Object.prototype] *)

(** The names under which every plain object has a property that it
    does not own: the methods of [Object.prototype] and the accessor
    [__proto__]. *)
Definition object_prototype_keys : list string :=
  ["constructor"; "__defineGetter__"; "__defineSetter__"; "hasOwnProperty";
   "__lookupGetter__"; "__lookupSetter__"; "isPrototypeOf";
   "propertyIsEnumerable"; "toString"; "valueOf"; "__proto__";
   "toLocaleString"].

(** What [o[k]] evaluates to: the value of an own property; or the
    member of [Object.prototype] of that name (a function, and for
    [__proto__] the prototype object itself), which is truthy; or
    [undefined]. *)
Inductive property (A : Type) :=
  | Own (a : A)
  | Inherited (k : string)
  | Undefined.
Global Arguments Own {A} a.
Global Arguments Inherited {A} k.
Global Arguments Undefined {A}.

(** [o[k]] on a dictionary *)
Definition obj_read {V} (k : string) (o : obj V) : property V :=
  match obj_get k o with
  | Some v => Own v
  | None =>
      if decide (k ∈ object_prototype_keys) then Inherited k else Undefined
  end.

(** [p || []] where an own value is an array *)
Definition or_empty {A} (p : property (list A)) : property (list A) :=
  match p with
  | Undefined => Own []
  | _ => p
  end.

(** A number held by a [reactions] object. *)
Inductive jsnum :=
  | Num (z : Z)
  | NaN.

(** [r[k]] on a [reactions] object *)
Definition reactions_read (k : string) (r : gmap string jsnum)
    : property jsnum :=
  match r !! k with
  | Some v => Own v
  | None =>
      if decide (k ∈ object_prototype_keys) then Inherited k else Undefined
  end.

(** [r[k] = v]: an own property is overwritten and a new one is made,
    except under [__proto__], where the inherited setter takes the
    number and does nothing. *)
Definition reactions_write (k : string) (v : jsnum) (r : gmap string jsnum)
    : gmap string jsnum :=
  match r !! k with
  | Some _ => <[k := v]> r
  | None => if decide (k = "__proto__") then r else <[k := v]> r
  end.

(** [!x] *)
Definition falsy (p : property jsnum) : bool :=
  match p with
  | Own (Num z) => bool_decide (z = 0%Z)
  | Own NaN => true
  | Inherited _ => false
  | Undefined => true
  end.

(** The number [x++] stores: [ToNumber(x) + 1], which is [NaN] for
    [NaN], for [undefined] and for an inherited function or object. *)
Definition incremented (p : property jsnum) : jsnum :=
  match p with
  | Own (Num z) => Num (z + 1)
  | _ => NaN
  end.

(** ** Data *)

(** [{ username, id: socket.id, currentRoom }] *)
Record user := User {
  username : string;
  user_id : string;
  currentRoom : string }.

(** [{ username, room }], an entry of [typingUsers] *)
Record typing_user := TypingUser {
  typing_username : string;
  typing_room : string }.

(** What a stored message carries besides the fields the server sets:
    the text payload of [send_message] (the spread of [messageData]:
    [message] and the client's temporary [messageId]) or the file of
    [send_file] ([file], [fileName], [fileType], [isFile: true]). *)
Inductive content :=
  | Text (message : string) (messageId : option Z)
  | File (file fileName fileType : string).

(** A message of a room log.  [reactions] and [readBy] are absent
    ([undefined]) on file messages until the first reaction or receipt. *)
Record message := Message {
  id : Z;
  sender : string;
  senderId : string;
  timestamp : string;
  room : string;
  body : content;
  reactions : option (gmap string jsnum);
  readBy : option (list string) }.

(** The object built by [private_message] ([isPrivate: true]). *)
Record private := Private {
  private_id : Z;
  private_sender : string;
  private_senderId : string;
  private_text : string;
  private_timestamp : string;
  private_to : string }.

(** Payloads received from clients. *)
Record message_data := MessageData {
  data_message : string;
  data_room : option string;
  data_messageId : option Z }.

Record file_data := FileData {
  data_file : string;
  data_fileName : string;
  data_fileType : string;
  data_file_room : option string }.

Record typing_data := TypingData {
  data_isTyping : bool;
  data_typing_room : option string }.

(** Events the server emits. *)
Inductive packet :=
  | E_user_list (us : list user)
  | E_user_joined (name sid : string)
  | E_user_left (name sid : string)
  | E_receive_message (m : message)
  | E_receive_file (m : message)
  | E_private_message (m : private)
  | E_typing_users (names : list string) (r : string)
  | E_room_messages (ms : property (list message))
  | E_reaction_added (mid : Z) (reaction : string) (count : property jsnum)
  | E_message_read (mid : Z) (userId : string).

(** Arguments of the acknowledgment callback. *)
Inductive ack :=
  | Ack_sent (success : bool) (mid : Z)
  | Ack_loaded (success : bool) (ms : list message) (hasMore : bool).

(** The four ways a handler sends something. *)
Inductive emission :=
  | Callback (a : ack)                   (* callback(...) *)
  | SocketEmit (p : packet)              (* socket.emit(...) *)
  | SocketTo (r : string) (p : packet)   (* socket.to(r).emit(...) *)
  | IoEmit (p : packet).                 (* io.emit(...) *)

(** The clock readings of one event. *)
Record clock := Clock {
  now : Z;            (* Date.now() *)
  iso : string }.     (* new Date().toISOString() *)

(** ** Server state *)

Record server := Server {
  users : obj user;
  messages : obj (list message);
  typingUsers : obj typing_user;
  adapter : gmap string (gset string) }.

Definition set_users (f : obj user → obj user) (s : server) : server :=
  Server (f (users s)) (messages s) (typingUsers s) (adapter s).
Definition set_messages (f : obj (list message) → obj (list message))
    (s : server) : server :=
  Server (users s) (f (messages s)) (typingUsers s) (adapter s).
Definition set_typingUsers (f : obj typing_user → obj typing_user)
    (s : server) : server :=
  Server (users s) (messages s) (f (typingUsers s)) (adapter s).
Definition set_adapter
    (f : gmap string (gset string) → gmap string (gset string))
    (s : server) : server :=
  Server (users s) (messages s) (typingUsers s) (f (adapter s)).

Definition rooms : list string := ["general"; "random"; "help"].

(** The state after the module body has run: [rooms.forEach] has given
    every configured room an empty log. *)
Definition init : server :=
  Server [] (foldl (λ o r, obj_set r [] o) [] rooms) [] ∅.

(** A handler returns or throws. *)
Inductive outcome :=
  | Return (s : server) (out : list emission)
  | TypeError.

(** ** Handlers *)

(** [users[socket.id]?.username || 'Anonymous'] *)
Definition sender_name (s : server) (sid : string) : string :=
  or_default (username <$> obj_get sid (users s)) "Anonymous".

(** [log.push(m); if (log.length > 100) log.shift();] *)
Definition push_bounded (log : list message) (m : message) : list message :=
  let log' := log ++ [m] in
  if decide (100 < length log')%nat then tail log' else log'.

(** Socket.io puts a new socket in the room named by its own id. *)
Definition connection (s : server) (sid : string) : outcome :=
  Return (set_adapter (insert sid {[ sid ]}) s) [].

Definition socket_join (sid r : string) (s : server) : server :=
  set_adapter (alter (λ rs, rs ∪ {[ r ]}) sid) s.
Definition socket_leave (sid r : string) (s : server) : server :=
  set_adapter (alter (λ rs, rs ∖ {[ r ]}) sid) s.

Definition user_join (s : server) (sid : string) (name : string) : outcome :=
  let s1 := set_users (obj_set sid (User name sid "general")) s in
  let s2 := socket_join sid "general" s1 in
  Return s2 [IoEmit (E_user_list (obj_values (users s2)));
             IoEmit (E_user_joined name sid)].

Definition new_message (s : server) (sid : string) (env : clock)
    (messageData : message_data) : message :=
  {| id := now env;
     sender := sender_name s sid;
     senderId := sid;
     timestamp := iso env;
     room := or_default (data_room messageData) "general";
     body := Text (data_message messageData) (data_messageId messageData);
     reactions := Some ∅;
     readBy := Some [] |}.

Definition send_message (s : server) (sid : string) (env : clock)
    (messageData : message_data) (callback : bool) : outcome :=
  let room := or_default (data_room messageData) "general" in
  let messageId := now env in
  let message := new_message s sid env messageData in
  match obj_get room (messages s) with
  | None => TypeError                     (* messages[room].push *)
  | Some log =>
      let s' := set_messages (obj_set room (push_bounded log message)) s in
      Return s'
        ((if callback then [Callback (Ack_sent true messageId)] else [])
         ++ [SocketTo room (E_receive_message message)])
  end.

(** [Object.values(typingUsers).filter(u => u.room === room).map(u => u.username)] *)
Definition roomTypingUsers (s : server) (r : string) : list string :=
  typing_username <$>
    filter (λ u, typing_room u = r) (obj_values (typingUsers s)).

Definition typing (s : server) (sid : string) (data : typing_data) : outcome :=
  match obj_get sid (users s) with
  | Some u =>
      let name := username u in
      let room := or_default (data_typing_room data) "general" in
      let s' :=
        if data_isTyping data
        then set_typingUsers (obj_set sid (TypingUser name room)) s
        else set_typingUsers (obj_delete sid) s in
      Return s' [SocketTo room (E_typing_users (roomTypingUsers s' room) room)]
  | None => Return s []
  end.

Definition new_private (s : server) (sid : string) (env : clock)
    (to text : string) : private :=
  {| private_id := now env;
     private_sender := sender_name s sid;
     private_senderId := sid;
     private_text := text;
     private_timestamp := iso env;
     private_to := to |}.

(** The client's own [messageId] is received and not used. *)
Definition private_message (s : server) (sid : string) (env : clock)
    (to text : string) (messageId : option Z) (callback : bool) : outcome :=
  let finalMessageId := now env in
  let messageData := new_private s sid env to text in
  Return s
    ((if callback then [Callback (Ack_sent true finalMessageId)] else [])
     ++ [SocketTo to (E_private_message messageData)]).

Definition join_room (s : server) (sid : string) (roomName : string) : outcome :=
  match obj_get sid (users s) with
  | Some u =>
      let previousRoom := currentRoom u in
      let s1 := socket_leave sid previousRoom s in
      let s2 := socket_join sid roomName s1 in
      let s3 :=
        set_users (obj_set sid (User (username u) (user_id u) roomName)) s2 in
      Return s3
        [SocketEmit
           (E_room_messages (or_empty (obj_read roomName (messages s3))))]
  | None => Return s []
  end.

Definition new_file_message (s : server) (sid : string) (env : clock)
    (fileData : file_data) : message :=
  {| id := now env;
     sender := sender_name s sid;
     senderId := sid;
     timestamp := iso env;
     room := or_default (data_file_room fileData) "general";
     body := File (data_file fileData) (data_fileName fileData)
               (data_fileType fileData);
     reactions := None;
     readBy := None |}.

Definition send_file (s : server) (sid : string) (env : clock)
    (fileData : file_data) : outcome :=
  let room := or_default (data_file_room fileData) "general" in
  let messageData := new_file_message s sid env fileData in
  match obj_get room (messages s) with
  | None => TypeError                     (* messages[room].push *)
  | Some log =>
      let s' := set_messages (obj_set room (push_bounded log messageData)) s in
      Return s'
        [SocketTo room (E_receive_file messageData);
         SocketEmit (E_receive_file messageData)]
  end.

(** [log.findIndex(msg => msg.id === messageId)], with the element found *)
Definition findIndex (messageId : Z) (log : list message)
    : option (nat * message) :=
  list_find (λ msg, id msg = messageId) log.

(** The loop shared by [add_reaction] and [mark_read]:
    [for (const room in messages)], stopping at the first room whose log
    has a message with the id; [f] is the body run on that message and
    gives the message after its mutation and what was emitted. *)
Fixpoint for_rooms (messageId : Z)
    (f : message → message * list emission)
    (ms : obj (list message)) : obj (list message) * list emission :=
  match ms with
  | [] => ([], [])
  | (r, log) :: rest =>
      match findIndex messageId log with
      | Some (messageIndex, m) =>
          let '(m', out) := f m in
          ((r, <[messageIndex := m']> log) :: rest, out)     (* break *)
      | None =>
          let '(rest', out) := for_rooms messageId f rest in
          ((r, log) :: rest', out)
      end
  end.

Definition set_reactions (r : gmap string jsnum) (m : message) : message :=
  Message (id m) (sender m) (senderId m) (timestamp m) (room m) (body m)
    (Some r) (readBy m).
Definition set_readBy (l : list string) (m : message) : message :=
  Message (id m) (sender m) (senderId m) (timestamp m) (room m) (body m)
    (reactions m) (Some l).

(** The body of the [add_reaction] loop on the message found. *)
Definition react (messageId : Z) (reaction : string) (m : message)
    : message * list emission :=
  (* if (!message.reactions) message.reactions = {}; *)
  let r0 := default ∅ (reactions m) in
  (* if (!message.reactions[reaction]) message.reactions[reaction] = 0; *)
  let r1 :=
    if falsy (reactions_read reaction r0)
    then reactions_write reaction (Num 0) r0
    else r0 in
  (* message.reactions[reaction]++; *)
  let r2 :=
    reactions_write reaction (incremented (reactions_read reaction r1)) r1 in
  (* count: message.reactions[reaction] *)
  (set_reactions r2 m,
   [IoEmit (E_reaction_added messageId reaction (reactions_read reaction r2))]).

Definition add_reaction (s : server) (sid : string)
    (messageId : Z) (reaction : string) : outcome :=
  match obj_get sid (users s) with
  | None => Return s []
  | Some u =>
      let '(ms, out) := for_rooms messageId (react messageId reaction) (messages s) in
      Return (set_messages (λ _, ms) s) out
  end.

(** The body of the [mark_read] loop on the message found. *)
Definition read (messageId : Z) (name : string) (m : message)
    : message * list emission :=
  (* if (!message.readBy) message.readBy = []; *)
  let l := default [] (readBy m) in
  if decide (name ∈ l)
  then (set_readBy l m, [])
  else (set_readBy (l ++ [name]) m, [IoEmit (E_message_read messageId name)]).

Definition mark_read (s : server) (sid : string) (messageId : Z) : outcome :=
  match obj_get sid (users s) with
  | None => Return s []
  | Some u =>
      let '(ms, out) := for_rooms messageId (read messageId (username u)) (messages s) in
      Return (set_messages (λ _, ms) s) out
  end.

(** [limit = 20] and [offset = 0] are the defaults of the destructured
    parameter; [callback] is called without a test.  When
    [messages[room]] is an inherited function or object, it is what
    [|| []] keeps, and it has no [slice]. *)
Definition load_messages (s : server) (r : string)
    (limit offset : option Z) (callback : bool) : outcome :=
  let limit := default 20%Z limit in
  let offset := default 0%Z offset in
  match or_empty (obj_read r (messages s)) with
  | Own roomMessages =>
      let len := Z.of_nat (length roomMessages) in
      let startIndex := Z.max 0 (len - limit - offset) in
      let endIndex := (len - offset)%Z in
      let requestedMessages := slice roomMessages startIndex endIndex in
      if callback
      then Return s [Callback (Ack_loaded true requestedMessages
                                 (bool_decide (startIndex > 0)%Z))]
      else TypeError
  | _ => TypeError                        (* roomMessages.slice *)
  end.

(** Socket.io has taken the socket out of every room when the
    [disconnect] handler runs. *)
Definition disconnect (s : server) (sid : string) : outcome :=
  let s0 := set_adapter (delete sid) s in
  let left :=
    match obj_get sid (users s0) with
    | Some u => [IoEmit (E_user_left (username u) sid)]
    | None => []
    end in
  let s1 := set_users (obj_delete sid) s0 in
  let s2 := set_typingUsers (obj_delete sid) s1 in
  Return s2
    (left ++ [IoEmit (E_user_list (obj_values (users s2)));
              IoEmit (E_typing_users (roomTypingUsers s2 "general") "general")]).

(** ** Events and runs *)

Inductive event :=
  | Connection
  | UserJoin (name : string)
  | SendMessage (messageData : message_data) (callback : bool)
  | Typing (data : typing_data)
  | PrivateMessage (to text : string) (messageId : option Z) (callback : bool)
  | JoinRoom (roomName : string)
  | SendFile (fileData : file_data)
  | AddReaction (messageId : Z) (reaction : string)
  | MarkRead (messageId : Z)
  | LoadMessages (r : string) (limit offset : option Z) (callback : bool)
  | Disconnect.

(** One event: the socket it arrives on, the clock when its handler
    runs, and its payload. *)
Record input := Input {
  socket : string;
  at_time : clock;
  what : event }.

Definition handle (s : server) (i : input) : outcome :=
  let sid := socket i in
  let env := at_time i in
  match what i with
  | Connection => connection s sid
  | UserJoin name => user_join s sid name
  | SendMessage d cb => send_message s sid env d cb
  | Typing d => typing s sid d
  | PrivateMessage to text mid cb => private_message s sid env to text mid cb
  | JoinRoom r => join_room s sid r
  | SendFile d => send_file s sid env d
  | AddReaction mid reaction => add_reaction s sid mid reaction
  | MarkRead mid => mark_read s sid mid
  | LoadMessages r limit offset cb => load_messages s r limit offset cb
  | Disconnect => disconnect s sid
  end.

(** A run of the process: events are handled one at a time; an
    exception that leaves a handler is not caught anywhere and ends the
    run. *)
Fixpoint run (s : server) (evs : list input) : option (server * list emission) :=
  match evs with
  | [] => Some (s, [])
  | i :: evs' =>
      match handle s i with
      | TypeError => None
      | Return s1 out1 =>
          match run s1 evs' with
          | Some (s2, out2) => Some (s2, out1 ++ out2)
          | None => None
          end
      end
  end.

(** ** What each socket receives *)

Inductive received :=
  | Got_ack (a : ack)
  | Got (p : packet).

(** [t] is in the Socket.io room [r]. *)
Definition in_room (s : server) (t r : string) : bool :=
  bool_decide (r ∈ default ∅ (adapter s !! t)).

Definition connected (s : server) (t : string) : bool :=
  bool_decide (is_Some (adapter s !! t)).

(** What socket [t] gets from one emission made by the handler running
    for socket [sid]: the callback and [socket.emit] go to [sid],
    [socket.to(r)] to the sockets in [r] other than [sid], [io.emit] to
    every connected socket. *)
Definition delivered (s : server) (sid : string) (e : emission) (t : string)
    : option received :=
  match e with
  | Callback a => if decide (t = sid) then Some (Got_ack a) else None
  | SocketEmit p => if decide (t = sid) then Some (Got p) else None
  | SocketTo r p =>
      if decide (t = sid) then None
      else if in_room s t r then Some (Got p) else None
  | IoEmit p => if connected s t then Some (Got p) else None
  end.

Definition inbox (s : server) (sid : string) (out : list emission) (t : string)
    : list received :=
  omap (λ e, delivered s sid e t) out.

(** ** Statement helpers *)

(** The last [n] elements of a list. *)
Definition last_n {A} (n : nat) (l : list A) : list A :=
  drop (length l - n) l.

(** The room an append event is addressed to, and the message it builds. *)
Definition appends_to (r : string) (i : input) : Prop :=
  match what i with
  | SendMessage d _ => or_default (data_room d) "general" = r
  | SendFile d => or_default (data_file_room d) "general" = r
  | _ => False
  end.

Definition appended (s : server) (i : input) : list message :=
  match what i with
  | SendMessage d _ => [new_message s (socket i) (at_time i) d]
  | SendFile d => [new_file_message s (socket i) (at_time i) d]
  | _ => []
  end.

(** The events that build a message, and the id of the message an
    emission hands to its addressees. *)
Definition creates (i : input) : bool :=
  match what i with
  | SendMessage _ _ | SendFile _ | PrivateMessage _ _ _ _ => true
  | _ => false
  end.

Definition created_id (e : emission) : option Z :=
  match e with
  | SocketTo _ (E_receive_message m) => Some (id m)
  | SocketTo _ (E_receive_file m) => Some (id m)
  | SocketTo _ (E_private_message m) => Some (private_id m)
  | _ => None
  end.

(** The first message with the id, in the order of the loop of
    [add_reaction] and [mark_read]: the position of its room among the
    keys of [messages], its index in that room's log, and the message. *)
Fixpoint locate (messageId : Z) (ms : obj (list message))
    : option (nat * nat * message) :=
  match ms with
  | [] => None
  | (r, log) :: rest =>
      match findIndex messageId log with
      | Some (i, m) => Some (0, i, m)
      | None => (λ x, (S x.1.1, x.1.2, x.2)) <$> locate messageId rest
      end
  end.

(** The count a message has for a symbol: its own
    [message.reactions[reaction]] when that is a number, else 0. *)
Definition count_of (reaction : string) (m : message) : Z :=
  match default ∅ (reactions m) !! reaction with
  | Some (Num c) => c
  | _ => 0%Z
  end.

(** Some room log holds a message with the id. *)
Definition present (messageId : Z) (ms : obj (list message)) : Prop :=
  ∃ r log m, (r, log) ∈ ms ∧ m ∈ log ∧ id m = messageId.

(** Two messages that differ at most in [reactions[reaction]] (every
    other own property of [reactions] is the same, an absent object
    counting as an empty one), resp. at most in [readBy]. *)
Definition same_but_reactions (reaction : string) (m m' : message) : Prop :=
  id m' = id m ∧ sender m' = sender m ∧ senderId m' = senderId m ∧
  timestamp m' = timestamp m ∧ room m' = room m ∧ body m' = body m ∧
  readBy m' = readBy m ∧
  ∀ other, other ≠ reaction →
    default ∅ (reactions m') !! other = default ∅ (reactions m) !! other.

Definition same_but_readBy (m m' : message) : Prop :=
  id m' = id m ∧ sender m' = sender m ∧ senderId m' = senderId m ∧
  timestamp m' = timestamp m ∧ room m' = room m ∧ body m' = body m ∧
  reactions m' = reactions m.

(** [s'] is [s] except, at most, for one message: the first one with
    the id in the order rooms are visited (no earlier room holds the id,
    and no earlier index of its room does), replaced by a message
    related to it by [same]. *)
Definition touches_first (messageId : Z) (same : message → message → Prop)
    (s s' : server) : Prop :=
  users s' = users s ∧ typingUsers s' = typingUsers s ∧
  adapter s' = adapter s ∧
  (messages s' = messages s ∨
   ∃ p i r log m m',
     messages s !! p = Some (r, log) ∧ log !! i = Some m ∧ id m = messageId ∧
     (∀ j m0, j < i → log !! j = Some m0 → id m0 ≠ messageId) ∧
     (∀ p' r' log' m0,
        p' < p → messages s !! p' = Some (r', log') → m0 ∈ log' →
        id m0 ≠ messageId) ∧
     same m m' ∧
     messages s' = <[p := (r, <[i := m']> log)]> (messages s)).

(** Every room log is within the bound. *)
Definition bounded (s : server) : Prop :=
  Forall (λ e, length e.2 ≤ 100) (messages s).

(** An [add_reaction] for the message and symbol, resp. a [mark_read]
    for the message, arriving on a socket whose user is registered
    (under the given name). *)
Definition reacts (messageId : Z) (reaction : string) (s : server)
    (i : input) : Prop :=
  what i = AddReaction messageId reaction ∧
  is_Some (obj_get (socket i) (users s)).

Definition marks (messageId : Z) (name : string) (s : server)
    (i : input) : Prop :=
  what i = MarkRead messageId ∧
  username <$> obj_get (socket i) (users s) = Some name.

(** ** Sample events *)

Definition at_ms (t : Z) : clock := Clock t "2024-05-01T10:00:00.000Z".

Definition connects (sid : string) : input := Input sid (at_ms 0) Connection.
Definition joins (sid name : string) : input :=
  Input sid (at_ms 0) (UserJoin name).
Definition says (sid text : string) (r : option string) (t : Z) : input :=
  Input sid (at_ms t) (SendMessage (MessageData text r None) true).

(** [alice] and [bob] online in [general]. *)
Definition two_users : list input :=
  [connects "sA"; joins "sA" "alice"; connects "sB"; joins "sB" "bob"].

(** [n] messages from [alice] to [general], one per millisecond. *)
Definition burst (n : nat) : list input :=
  (λ k, says "sA" "hi" (Some "general") (Z.of_nat k)) <$> seq 0 n.

(** Two messages handled within the same millisecond. *)
Definition same_millisecond : list input :=
  two_users ++ [says "sA" "one" None 1000; says "sB" "two" None 1000].

(** A message addressed to a room that was never configured. *)
Definition to_lobby : input := says "sA" "hi" (Some "lobby") 5.
Definition file_to_lobby : input :=
  Input "sA" (at_ms 5)
    (SendFile (FileData "data:image/png;base64,AAAA" "a.png" "image/png"
                 (Some "lobby"))).

(** The state with [alice] and [bob] online, and after [alice]'s first
    message (id 5) to [general]. *)
Definition online : server :=
  match run init two_users with Some (s, _) => s | None => init end.

Definition talking : server :=
  match run online [says "sA" "hello" None 5] with
  | Some (s, _) => s
  | None => online
  end.

Definition three_reactions : list input :=
  [Input "sB" (at_ms 6) (AddReaction 5 "thumbsup");
   Input "sA" (at_ms 7) (AddReaction 5 "thumbsup");
   Input "sB" (at_ms 8) (AddReaction 5 "thumbsup")].


(** ** HTTP routes *)

(** [GET /api/messages/:room] *)
Definition api_messages (s : server) (r : string)
    : property (list message) :=
  or_empty (obj_read (or_default (Some r) "general") (messages s)).

(** [GET /api/users] *)
Definition api_users (s : server) : list user := obj_values (users s).

(** [GET /api/rooms] *)
Definition api_rooms : list string := rooms.

(** ** The client's message list (client/src/socket/socket.js)

    The hook keeps the messages on screen in a list; every change is an
    updater [prev => next] handed to [setMessages].  The objects in the
    list come from four places; the updaters only ever write [id],
    [status], [reactions] and [readBy] and copy the other fields with a
    spread. *)

Inductive origin :=
  (* tempMessage of sendMessage: message, senderId, timestamp, room;
     sender is 'You' *)
  | Pending (text sid stamp r : string)
  (* a message object of the server, as received *)
  | Stored (from sid stamp r : string) (b : content)
  (* the notice built by onUserJoined and onUserLeft: message, timestamp *)
  | Notice (text stamp : string)
  (* the object built by onReceiveFile *)
  | Upload (from sid file fileName fileType stamp : string).

(** What a [reactions] object of the client holds under a name: a
    number; [null], which is how a [NaN] of the server arrives; or a
    string (its text is not modelled: it is never empty). *)
Inductive held :=
  | HNum (z : Z)
  | HNull
  | HText.

Definition arrives (n : jsnum) : held :=
  match n with
  | Num z => HNum z
  | NaN => HNull
  end.

Record view := View {
  view_id : Z;
  view_origin : origin;
  view_status : option string;
  view_reactions : option (gmap string held);
  view_readBy : option (list string) }.

(** A message of the server as the client holds it. *)
Definition view_of (m : message) : view :=
  View (id m) (Stored (sender m) (senderId m) (timestamp m) (room m) (body m))
    None ((λ r : gmap string jsnum, arrives <$> r) <$> reactions m)
    (readBy m).

(** [sendMessage]: the optimistic copy, the request, and the two
    branches of the acknowledgment callback. *)
Definition sendMessage_local (messageId : Z) (text sid stamp r : string)
    (prev : list view) : list view :=
  prev ++ [View messageId (Pending text sid stamp r) (Some "pending") None None].

Definition sendMessage_request (messageId : Z) (text r : string) : event :=
  SendMessage (MessageData text (Some r) (Some messageId)) true.

Definition sendMessage_ack (messageId : Z) (success : bool) (ackId : Z)
    (prev : list view) : list view :=
  if success
  then (λ msg, if decide (view_id msg = messageId)
               then View ackId (view_origin msg) (Some "delivered")
                      (view_reactions msg) (view_readBy msg)
               else msg) <$> prev
  else (λ msg, if decide (view_id msg = messageId)
               then View (view_id msg) (view_origin msg) (Some "failed")
                      (view_reactions msg) (view_readBy msg)
               else msg) <$> prev.

(** [onReceiveMessage] *)
Definition onReceiveMessage (m : message) (prev : list view) : list view :=
  prev ++ [view_of m].

(** [loadMoreMessages]: nothing is sent while a load is pending or when
    [hasMoreMessages] is off; the request names the room and the limit,
    and no offset.  The callback puts the page before the list and sets
    [hasMoreMessages] from the length of the page. *)
Definition loadMoreMessages (loadingMore hasMoreMessages : bool) (r : string)
    : option event :=
  if loadingMore || negb hasMoreMessages then None
  else Some (LoadMessages r (Some 20%Z) None true).

Definition loadMoreMessages_response (success : bool) (page : list message)
    (prev : list view) (hasMoreMessages : bool) : list view * bool :=
  if success
  then ((view_of <$> page) ++ prev, bool_decide (length page = 20))
  else (prev, hasMoreMessages).

(** [msg.reactions?.[reaction]]: [undefined] when the message has no
    [reactions] object, else the own or the inherited property. *)
Definition view_read (reaction : string) (v : view) : property held :=
  match view_reactions v with
  | None => Undefined
  | Some r =>
      match r !! reaction with
      | Some h => Own h
      | None =>
          if decide (reaction ∈ object_prototype_keys)
          then Inherited reaction else Undefined
      end
  end.

(** [(x || 0) + 1]: a number goes up by one, [null] and [undefined]
    count as [0], and a string or an inherited function or object is
    truthy and [+] appends to its text. *)
Definition raised (p : property held) : held :=
  match p with
  | Own (HNum c) => HNum (c + 1)
  | Own HNull => HNum 1
  | Own HText => HText
  | Inherited _ => HText
  | Undefined => HNum 1
  end.

(** [onReactionAdded]: the count of the event is not read; the object
    literal gives the new [reactions] an own property under the name. *)
Definition onReactionAdded (messageId : Z) (reaction : string)
    (count : property jsnum) (prev : list view) : list view :=
  (λ msg, if decide (view_id msg = messageId)
          then
            View (view_id msg) (view_origin msg) (view_status msg)
              (Some (<[reaction := raised (view_read reaction msg)]>
                       (default ∅ (view_reactions msg))))
              (view_readBy msg)
          else msg) <$> prev.

(** [onMessageRead] *)
Definition onMessageRead (messageId : Z) (userId : string)
    (prev : list view) : list view :=
  (λ msg, if decide (view_id msg = messageId)
          then View (view_id msg) (view_origin msg) (view_status msg)
                 (view_reactions msg)
                 (Some (default [] (view_readBy msg) ++ [userId]))
          else msg) <$> prev.

(** ** Further statement helpers *)

(** The states the process reaches from its start. *)
Definition reachable (s : server) : Prop :=
  ∃ evs out, run init evs = Some (s, out).

(** A run in which Socket.io delivers events as it does: [connection]
    for a socket that is not connected, every other event on a socket
    that is. *)
Fixpoint orderly (s : server) (evs : list input) : Prop :=
  match evs with
  | [] => True
  | i :: evs' =>
      match what i with
      | Connection => adapter s !! socket i = None
      | _ => is_Some (adapter s !! socket i)
      end ∧
      match handle s i with
      | Return s1 _ => orderly s1 evs'
      | TypeError => True
      end
  end.

(** What the dictionaries of sessions keep true. *)
Definition sessions_ok (s : server) : Prop :=
  NoDup (obj_keys (users s)) ∧ NoDup (obj_keys (typingUsers s)) ∧
  (∀ sid u, obj_get sid (users s) = Some u → user_id u = sid) ∧
  (∀ sid, is_Some (obj_get sid (typingUsers s)) →
          is_Some (obj_get sid (users s))).

(** Every registered socket is in the Socket.io room of its
    [currentRoom]. *)
Definition in_current_room (s : server) : Prop :=
  ∀ sid u, obj_get sid (users s) = Some u →
    ∃ rs, adapter s !! sid = Some rs ∧ currentRoom u ∈ rs.

(** [success] of an acknowledgment. *)
Definition ack_success (a : ack) : bool :=
  match a with Ack_sent b _ | Ack_loaded b _ _ => b end.

(** The ids of every log are in ascending order and at most [t]. *)
Definition ids_in_order (t : Z) (ms : list (string * list message)) : Prop :=
  Forall (λ e : string * list Z,
            StronglySorted Z.le e.2 ∧ Forall (λ x, (x ≤ t)%Z) e.2)
    ((λ e : string * list message, (e.1, id <$> e.2)) <$> ms).

(** The count a message of the client has for a symbol: its own
    [msg.reactions[reaction]] when that is a number, else 0. *)
Definition view_count (reaction : string) (v : view) : Z :=
  match default ∅ (view_reactions v) !! reaction with
  | Some (HNum c) => c
  | _ => 0%Z
  end.

(** ** Further sample states *)

(** [alice] is typing in [general]. *)
Definition composing_run : list input :=
  two_users ++ [Input "sA" (at_ms 1) (Typing (TypingData true None))].
Definition composing : server :=
  match run init composing_run with Some (s, _) => s | None => init end.

(** [alice]'s message with two hearts on it. *)
Definition hearted : server :=
  match run talking [Input "sB" (at_ms 6) (AddReaction 5 "heart");
                     Input "sA" (at_ms 7) (AddReaction 5 "heart")] with
  | Some (s, _) => s
  | None => talking
  end.

(** Three reactions under a name every object inherits. *)
Definition three_constructors : list input :=
  [Input "sB" (at_ms 6) (AddReaction 5 "constructor");
   Input "sA" (at_ms 7) (AddReaction 5 "constructor");
   Input "sB" (at_ms 8) (AddReaction 5 "constructor")].

(** The run that ends in [talking], and [alice]'s message in it. *)
Definition talking_run : list input :=
  two_users ++ [says "sA" "hello" None 5].
Definition hello : message :=
  new_message online "sA" (at_ms 5) (MessageData "hello" None None).

(** * Properties *)

(** ** Dictionaries *)

Section obj_facts.
Context {V : Type}.
Implicit Types (o : obj V) (k : string) (v : V).

Lemma obj_get_set_eq k v o : obj_get k (obj_set k v o) = Some v.
Proof.
  induction o as [|[k' v'] o IH]; simpl.
  - by rewrite decide_True.
  - destruct (decide (k = k')) as [->|Hne]; simpl.
    + by rewrite decide_True.
    + by rewrite decide_False.
Qed.

Lemma obj_get_set_ne k k' v o :
  k ≠ k' → obj_get k' (obj_set k v o) = obj_get k' o.
Proof.
  intros Hne. induction o as [|[k0 v0] o IH]; simpl.
  - by rewrite decide_False.
  - destruct (decide (k = k0)) as [->|Hk]; simpl.
    + by rewrite !decide_False.
    + by rewrite IH.
Qed.

Lemma obj_keys_set k v o :
  is_Some (obj_get k o) → obj_keys (obj_set k v o) = obj_keys o.
Proof.
  unfold obj_keys. induction o as [|[k0 v0] o IH]; simpl.
  - by intros [? ?].
  - destruct (decide (k = k0)) as [->|Hk]; simpl; [done|].
    intros Hsome. f_equal. by apply IH.
Qed.

Lemma obj_get_keys k o : is_Some (obj_get k o) ↔ k ∈ obj_keys o.
Proof.
  unfold obj_keys. induction o as [|[k0 v0] o IH]; simpl.
  - split; [by intros [? ?]|by intros ?%elem_of_nil].
  - rewrite elem_of_cons. destruct (decide (k = k0)) as [->|Hk].
    + split; eauto.
    + rewrite IH. split; [by right|]. by intros [?|?].
Qed.
End obj_facts.

(** ** The bounded log *)

Lemma last_n_all {A} n (l : list A) : length l ≤ n → last_n n l = l.
Proof. intros Hle. unfold last_n. by replace (length l - n) with 0 by lia. Qed.

Lemma length_last_n {A} n (l : list A) : length (last_n n l) = min n (length l).
Proof. unfold last_n. rewrite length_drop. lia. Qed.

Lemma last_n_app_last_n {A} n (a b : list A) :
  last_n n (last_n n a ++ b) = last_n n (a ++ b).
Proof.
  destruct (decide (length a ≤ n)) as [Hle|Hgt].
  - by rewrite (last_n_all n a).
  - unfold last_n. rewrite !length_app, length_drop.
    rewrite !drop_app, !drop_drop, !length_drop.
    f_equal; f_equal; lia.
Qed.

Lemma push_bounded_last_n log m :
  length log ≤ 100 → push_bounded log m = last_n 100 (log ++ [m]).
Proof.
  intros Hle. unfold push_bounded, last_n. rewrite length_app. simpl.
  case_decide as Hlen.
  - replace (length log + 1 - 100) with 1 by lia. by destruct log.
  - by replace (length log + 1 - 100) with 0 by lia.
Qed.

Lemma length_push_bounded log m :
  length log ≤ 100 → length (push_bounded log m) ≤ 100.
Proof.
  intros Hle. rewrite push_bounded_last_n, length_last_n by done. lia.
Qed.

(** An append event stores its message in the bounded log of its room
    and touches no other part of the state that builds messages. *)
Lemma handle_append s r log i :
  obj_get r (messages s) = Some log →
  appends_to r i →
  ∃ s' out m,
    handle s i = Return s' out ∧ appended s i = [m] ∧
    users s' = users s ∧
    obj_get r (messages s') = Some (push_bounded log m).
Proof.
  intros Hget Happ. destruct i as [sid env ev].
  unfold handle, appends_to, appended in *. simpl in *.
  destruct ev; try done; simpl in *.
  - unfold send_message. rewrite Happ, Hget.
    eexists _, _, _. split_and!; try done. simpl. apply obj_get_set_eq.
  - unfold send_file. rewrite Happ, Hget.
    eexists _, _, _. split_and!; try done. simpl. apply obj_get_set_eq.
Qed.

Lemma appended_users s s' i : users s' = users s → appended s' i = appended s i.
Proof.
  intros Hu. unfold appended, new_message, new_file_message, sender_name.
  by rewrite Hu.
Qed.

Lemma run_appends evs : ∀ s r log,
  obj_get r (messages s) = Some log →
  length log ≤ 100 →
  Forall (appends_to r) evs →
  ∃ s' out,
    run s evs = Some (s', out) ∧ users s' = users s ∧
    obj_get r (messages s') = Some (last_n 100 (log ++ (evs ≫= appended s))).
Proof.
  induction evs as [|i evs IH]; intros s r log Hget Hlen Hall.
  - exists s, []. simpl. rewrite app_nil_r, last_n_all by done. done.
  - apply Forall_cons in Hall as [Hi Hall].
    destruct (handle_append s r log i Hget Hi) as (s1 & out1 & m & Hh & Hm & Hu & Hget1).
    destruct (IH s1 r _ Hget1 (length_push_bounded _ m Hlen) Hall)
      as (s2 & out2 & Hrun & Hu2 & Hget2).
    exists s2, (out1 ++ out2). cbn [run]. rewrite Hh, Hrun. split_and!; [done|congruence|].
    assert (evs ≫= appended s1 = evs ≫= appended s) as Hb.
    { apply list_bind_ext; [|done]. intros j. by apply appended_users. }
    rewrite Hget2, Hb, push_bounded_last_n, last_n_app_last_n by done.
    by rewrite bind_cons, Hm, <-app_assoc.
Qed.

Lemma appended_one s r i : appends_to r i → ∃ m, appended s i = [m].
Proof.
  destruct i as [sid env ev]. unfold appends_to, appended. simpl.
  destruct ev; try done; eauto.
Qed.

Lemma length_appended s r evs :
  Forall (appends_to r) evs → length (evs ≫= appended s) = length evs.
Proof.
  induction 1 as [|i evs Hi _ IH]; [done|].
  destruct (appended_one s r i Hi) as [m Hm].
  rewrite bind_cons, Hm. simpl. by rewrite IH.
Qed.

Lemma appended_take s r evs : ∀ k,
  Forall (appends_to r) evs →
  take k evs ≫= appended s = take k (evs ≫= appended s).
Proof.
  induction evs as [|i evs IH]; intros k Hall.
  - by destruct k.
  - apply Forall_cons in Hall as [Hi Hall].
    destruct (appended_one s r i Hi) as [m Hm].
    destruct k as [|k]; [done|].
    rewrite firstn_cons, !bind_cons, Hm. simpl. by rewrite IH.
Qed.

Lemma tail_drop {A} (l : list A) : tail l = drop 1 l.
Proof. by destruct l. Qed.

(** Appending to the kept suffix: the head goes when the suffix is full. *)
Lemma last_n_snoc {A} n (l : list A) x :
  0 < n →
  last_n n (l ++ [x]) =
    if decide (length (last_n n l) = n)
    then tail (last_n n l) ++ [x] else last_n n l ++ [x].
Proof.
  intros Hn. rewrite length_last_n. unfold last_n.
  rewrite length_app. simpl. case_decide as Hfull.
  - rewrite tail_drop, drop_drop, drop_app_le by lia.
    do 2 f_equal. lia.
  - replace (length l + 1 - n) with 0 by lia.
    by replace (length l - n) with 0 by lia.
Qed.

(** ** [slice] between valid bounds *)

Lemma slice_within {A} (l : list A) (a b : Z) :
  (0 ≤ a)%Z → (a ≤ b)%Z → (b ≤ Z.of_nat (length l))%Z →
  slice l a b = take (Z.to_nat (b - a)) (drop (Z.to_nat a) l).
Proof.
  intros Ha Hab Hb. unfold slice, rel_index.
  rewrite !decide_False by lia. by rewrite !Z.min_l by lia.
Qed.

Lemma slice_full {A} (l : list A) :
  slice l 0 (Z.of_nat (length l)) = l.
Proof.
  rewrite slice_within by lia. simpl. rewrite drop_0, take_ge; [done|lia].
Qed.

(** [load_messages] when the offset is within the log: the window of at
    most [L] messages that ends [F] messages before the tail, and whether
    anything older precedes it. *)
Lemma load_messages_window s r log (L F : Z) :
  obj_get r (messages s) = Some log →
  (0 ≤ L)%Z → (0 ≤ F ≤ Z.of_nat (length log))%Z →
  let n := Z.of_nat (length log) in
  let start := Z.max 0 (n - L - F) in
  load_messages s r (Some L) (Some F) true =
    Return s [Callback (Ack_loaded true
      (take (Z.to_nat (n - F - start)) (drop (Z.to_nat start) log))
      (bool_decide (0 < n - L - F)%Z))].
Proof.
  intros Hget HL HF n start. unfold load_messages, obj_read. rewrite Hget.
  cbn [or_empty from_option Datatypes.id].
  fold n. fold start. rewrite slice_within by lia.
  do 4 f_equal. apply bool_decide_ext. lia.
Qed.

(** C1. From a room log within the bound, any sequence of appends to the
    room ([send_message] or [send_file]) keeps the log within 100
    entries after every append; each append puts the new message last
    and, when the log is full, removes the first (oldest) one; and after
    more than 100 appends the log is exactly the last 100 appended
    messages in append order, which is also all that [load_messages]
    over the full range returns, with nothing older left. *)
Theorem room_log_keeps_last_100 s r log evs :
  obj_get r (messages s) = Some log →
  length log ≤ 100 →
  Forall (appends_to r) evs →
  let new := evs ≫= appended s in
  let log_after k := last_n 100 (log ++ take k new) in
  (∀ k, ∃ s' out,
      run s (take k evs) = Some (s', out) ∧
      obj_get r (messages s') = Some (log_after k) ∧
      length (log_after k) ≤ 100) ∧
  (∀ k m, new !! k = Some m →
      log_after (S k) =
        if decide (length (log_after k) = 100)
        then tail (log_after k) ++ [m] else log_after k ++ [m]) ∧
  (100 < length evs →
     let kept := drop (length evs - 100) new in
     length new = length evs ∧ length kept = 100 ∧
     ∃ s' out,
       run s evs = Some (s', out) ∧
       obj_get r (messages s') = Some kept ∧
       load_messages s' r (Some 100%Z) (Some 0%Z) true =
         Return s' [Callback (Ack_loaded true kept false)]).
Proof.
  intros Hget Hlen Hall new log_after.
  assert (length new = length evs) as Hnew by by eapply length_appended.
  split_and!.
  - intros k.
    destruct (run_appends (take k evs) s r log Hget Hlen (Forall_take _ _ _ Hall))
      as (s' & out & Hrun & _ & Hlog).
    exists s', out. split_and!; [done| |].
    + rewrite Hlog. unfold log_after, new. by erewrite appended_take.
    + unfold log_after. rewrite length_last_n. lia.
  - intros k m Hm. unfold log_after.
    rewrite (take_S_r _ _ _ Hm), app_assoc. apply last_n_snoc. lia.
  - intros Hmany kept.
    destruct (run_appends evs s r log Hget Hlen Hall)
      as (s' & out & Hrun & _ & Hlog).
    assert (last_n 100 (log ++ new) = kept) as Hkept.
    { unfold last_n, kept. rewrite length_app, drop_app_ge by lia.
      f_equal. lia. }
    assert (length kept = 100) as Hk100.
    { unfold kept. rewrite length_drop. lia. }
    split_and!; [done..|].
    exists s', out. fold new in Hlog. rewrite Hkept in Hlog.
    split_and!; [done..|].
    rewrite (load_messages_window s' r kept) by (done || lia).
    rewrite Hk100. simpl. by rewrite drop_0, take_ge by lia.
Qed.

(** ** Message identifiers *)

(** The one message a creating handler hands out carries the clock
    reading of its event as id; the other handlers hand out none. *)
Lemma handle_created s i s' out :
  handle s i = Return s' out →
  omap created_id out = if creates i then [now (at_time i)] else [].
Proof.
  destruct i as [sid env ev]. unfold handle, creates. simpl.
  destruct ev; simpl.
  - by intros [= <- <-].
  - by intros [= <- <-].
  - unfold send_message. destruct (obj_get _ _); [|done].
    intros [= <- <-]. by destruct callback.
  - unfold typing. destruct (obj_get _ _); by intros [= <- <-].
  - unfold private_message. intros [= <- <-]. by destruct callback.
  - unfold join_room. destruct (obj_get _ _); by intros [= <- <-].
  - unfold send_file. destruct (obj_get _ _); [|done]. by intros [= <- <-].
  - unfold add_reaction. destruct (obj_get _ _); [|by intros [= <- <-]].
    destruct (for_rooms _ _ _) as [ms o] eqn:Hloop. intros [= <- <-].
    revert ms o Hloop. induction (messages s) as [|[r log] rest IH]; simpl.
    + by intros ? ? [= <- <-].
    + destruct (findIndex _ _) as [[j m]|].
      * by intros ? ? [= <- <-].
      * destruct (for_rooms _ _ rest) as [ms' o']. intros ? ? [= <- <-]. eauto.
  - unfold mark_read. destruct (obj_get _ _); [|by intros [= <- <-]].
    destruct (for_rooms _ _ _) as [ms o] eqn:Hloop. intros [= <- <-].
    revert ms o Hloop. induction (messages s) as [|[r log] rest IH]; simpl.
    + by intros ? ? [= <- <-].
    + destruct (findIndex _ _) as [[j m]|].
      * unfold read. case_decide; by intros ? ? [= <- <-].
      * destruct (for_rooms _ _ rest) as [ms' o']. intros ? ? [= <- <-]. eauto.
  - unfold load_messages. destruct (or_empty _); [|done..].
    destruct callback; [|done]. by intros [= <- <-].
  - unfold disconnect. intros [= <- <-]. simpl.
    by destruct (obj_get _ _).
Qed.

Lemma run_created evs : ∀ s s' out,
  run s evs = Some (s', out) →
  omap created_id out = (λ i, now (at_time i)) <$> filter (λ i, creates i) evs.
Proof.
  induction evs as [|i evs IH]; intros s s' out; simpl.
  - by intros [= <- <-].
  - destruct (handle s i) as [s1 out1|] eqn:Hh; [|done].
    destruct (run s1 evs) as [[s2 out2]|] eqn:Hrun; [|done].
    intros [= <- <-]. rewrite omap_app, (handle_created _ _ _ _ Hh), (IH _ _ _ Hrun).
    rewrite filter_cons. destruct (creates i); by simpl.
Qed.

(** C2 (amended). The id of every message the server creates (room
    message, file message or private message) is the reading of
    [Date.now()] when its event is handled: along any run the ids handed
    out are, in order, the clock readings of the creating events.  So
    when those readings increase strictly from one creating event to the
    next, the ids increase strictly and no two are equal. *)
Theorem ids_are_clock_readings s evs s' out :
  run s evs = Some (s', out) →
  let readings := (λ i, now (at_time i)) <$> filter (λ i, creates i) evs in
  let ids := omap created_id out in
  ids = readings ∧
  (StronglySorted Z.lt readings → StronglySorted Z.lt ids ∧ NoDup ids).
Proof.
  intros Hrun readings ids.
  assert (ids = readings) as -> by by eapply run_created.
  split; [done|]. intros Hsorted. split; [done|].
  clear -Hsorted. induction Hsorted as [|x l _ IH Hx]; constructor; [|done].
  intros Hin. eapply Forall_forall in Hx; [|done]. lia.
Qed.

(** ** The first theorems at sample inputs *)

Lemma burst_appends n : Forall (appends_to "general") (burst n).
Proof. unfold burst. apply Forall_fmap, Forall_true. by intros k. Qed.

(** 101 messages sent to [general] from the start: the first is gone. *)
Lemma room_log_keeps_last_100_witness :
  ∃ s' out,
    run init (burst 101) = Some (s', out) ∧
    obj_get "general" (messages s') = Some (drop 1 (burst 101 ≫= appended init)).
Proof.
  destruct (room_log_keeps_last_100 init "general" [] (burst 101))
    as (_ & _ & Hlast).
  - reflexivity.
  - simpl; lia.
  - apply burst_appends.
  - destruct Hlast as (_ & _ & s' & out & Hrun & Hlog & _).
    + simpl; lia.
    + exists s', out. split; [exact Hrun|exact Hlog].
Defined.

(** Three messages at the milliseconds 0, 1 and 2 get the ids 0, 1, 2. *)
Lemma ids_are_clock_readings_witness :
  ∃ s' out,
    run init (burst 3) = Some (s', out) ∧
    omap created_id out = [0; 1; 2]%Z.
Proof.
  destruct (run init (burst 3)) as [[s' out]|] eqn:Hrun.
  - exists s', out. split; [reflexivity|].
    destruct (ids_are_clock_readings init (burst 3) s' out Hrun) as [Hids _].
    exact Hids.
  - vm_compute in Hrun. discriminate Hrun.
Defined.

(** C2 (as stated) fails: [alice] and [bob] each send a message to
    [general] within the same millisecond; the log holds the two
    messages, one after the other, under one id. *)
Lemma same_millisecond_same_id :
  ∃ s out m1 m2,
    run init same_millisecond = Some (s, out) ∧
    obj_get "general" (messages s) = Some [m1; m2] ∧
    sender m1 = "alice" ∧ sender m2 = "bob" ∧
    id m1 = id m2 ∧ ¬ (id m1 < id m2)%Z.
Proof.
  eexists _, _, _, _. split; [vm_compute; reflexivity|].
  split; [vm_compute; reflexivity|].
  cbn [sender id]. split_and!; [reflexivity..|lia].
Qed.

(** ** Pagination *)

(** The three pages of a log of 50 messages. *)
Lemma load_messages_fifty s r log :
  obj_get r (messages s) = Some log → length log = 50 →
  load_messages s r (Some 20%Z) (Some 0%Z) true =
    Return s [Callback (Ack_loaded true (drop 30 log) true)] ∧
  load_messages s r (Some 20%Z) (Some 20%Z) true =
    Return s [Callback (Ack_loaded true (take 20 (drop 10 log)) true)] ∧
  load_messages s r (Some 20%Z) (Some 40%Z) true =
    Return s [Callback (Ack_loaded true (take 10 log) false)].
Proof.
  intros Hget Hlen. split_and!.
  - rewrite (load_messages_window s r log) by (done || lia).
    rewrite Hlen. simpl. by rewrite take_ge by (rewrite length_drop; lia).
  - rewrite (load_messages_window s r log) by (done || lia).
    by rewrite Hlen.
  - rewrite (load_messages_window s r log) by (done || lia).
    by rewrite Hlen.
Qed.

(** An offset at the length of the log gives the empty page. *)
Lemma load_messages_offset_at_length s r log (L : Z) :
  obj_get r (messages s) = Some log → (0 ≤ L)%Z →
  load_messages s r (Some L) (Some (Z.of_nat (length log))) true =
    Return s [Callback (Ack_loaded true [] false)].
Proof.
  intros Hget HL. rewrite (load_messages_window s r log) by (done || lia).
  do 4 f_equal.
  - replace (Z.to_nat _) with 0 by lia. apply take_0.
  - apply bool_decide_eq_false. lia.
Qed.

(** An offset beyond the length of the log: [endIndex] is negative and
    [slice] counts it from the end of the log, so the page is the
    [2 * length - offset] oldest messages (none once the offset reaches
    twice the length). *)
Lemma load_messages_offset_beyond s r log (L F : Z) :
  obj_get r (messages s) = Some log → (0 ≤ L)%Z →
  (Z.of_nat (length log) < F)%Z →
  load_messages s r (Some L) (Some F) true =
    Return s [Callback (Ack_loaded true
      (take (Z.to_nat (2 * Z.of_nat (length log) - F)) log) false)].
Proof.
  intros Hget HL HF. unfold load_messages, obj_read. rewrite Hget. cbn [or_empty].
  cbn [from_option Datatypes.id]. rewrite Z.max_l by lia.
  unfold slice, rel_index.
  rewrite (decide_False (P := (0 < 0)%Z)), decide_True by lia.
  rewrite Z.min_l by lia. simpl. rewrite drop_0. do 5 f_equal. lia.
Qed.

(** C3 (the code at the failing input).  A room with exactly 50
    messages, [limit = 20] and [offset = 60]: the window lies wholly
    before the log, yet the answer is the 40 oldest messages. *)
Theorem load_messages_offset_past_log :
  ∃ s out log,
    run init (two_users ++ burst 50) = Some (s, out) ∧
    obj_get "general" (messages s) = Some log ∧ length log = 50 ∧
    load_messages s "general" (Some 20%Z) (Some 60%Z) true =
      Return s [Callback (Ack_loaded true (take 40 log) false)].
Proof.
  eexists _, _, _. split; [vm_compute; reflexivity|].
  split; [vm_compute; reflexivity|].
  split; [reflexivity|]. vm_compute. reflexivity.
Qed.

(** ** Rooms that were never configured *)

(** Whatever the state, [send_message] and [send_file] to a name that is
    not a key of [messages] throw at [messages[room].push], before the
    acknowledgment and before any emission. *)
Lemma send_to_unknown_room s sid env d fd cb :
  obj_get (or_default (data_room d) "general") (messages s) = None →
  obj_get (or_default (data_file_room fd) "general") (messages s) = None →
  send_message s sid env d cb = TypeError ∧ send_file s sid env fd = TypeError.
Proof. intros Hd Hfd. unfold send_message, send_file. by rewrite Hd, Hfd. Qed.

(** The siblings [load_messages] and [join_room] read
    [messages[room] || []] and, under a name no object inherits, answer
    with the empty log. *)
Lemma load_from_unknown_room s r (L F : Z) :
  obj_get r (messages s) = None → r ∉ object_prototype_keys →
  (0 ≤ L)%Z → (0 ≤ F)%Z →
  load_messages s r (Some L) (Some F) true =
    Return s [Callback (Ack_loaded true [] false)].
Proof.
  intros Hget Hr HL HF. unfold load_messages, obj_read.
  rewrite Hget, decide_False by done.
  cbn [or_empty from_option Datatypes.id length]. unfold slice.
  rewrite drop_nil, take_nil. do 4 f_equal. apply bool_decide_eq_false. lia.
Qed.

(** Under an inherited name [messages[room]] is a function or an
    object, and [load_messages] throws at [roomMessages.slice]. *)
Lemma load_from_inherited_name s r limit offset cb :
  obj_get r (messages s) = None → r ∈ object_prototype_keys →
  load_messages s r limit offset cb = TypeError.
Proof.
  intros Hget Hr. unfold load_messages, obj_read.
  by rewrite Hget, decide_True by done.
Qed.

Lemma for_rooms_keys mid f ms : obj_keys (for_rooms mid f ms).1 = obj_keys ms.
Proof.
  unfold obj_keys. induction ms as [|[r log] rest IH]; simpl; [done|].
  destruct (findIndex mid log) as [[i m]|].
  - by destruct (f m).
  - destruct (for_rooms mid f rest) as [rest' out]. simpl in *. by f_equal.
Qed.

(** No handler adds or removes a key of [messages]. *)
Lemma handle_keys s i s' out :
  handle s i = Return s' out → obj_keys (messages s') = obj_keys (messages s).
Proof.
  destruct i as [sid env ev]. unfold handle. simpl. destruct ev; simpl.
  - by intros [= <- <-].
  - by intros [= <- <-].
  - unfold send_message. destruct (obj_get _ _) eqn:Hget; [|done].
    intros [= <- <-]. simpl. apply obj_keys_set. by rewrite Hget.
  - unfold typing. destruct (obj_get _ _); [|by intros [= <- <-]].
    intros [= <- <-]. by destruct (data_isTyping data).
  - by intros [= <- <-].
  - unfold join_room. destruct (obj_get _ _); by intros [= <- <-].
  - unfold send_file. destruct (obj_get _ _) eqn:Hget; [|done].
    intros [= <- <-]. simpl. apply obj_keys_set. by rewrite Hget.
  - unfold add_reaction. destruct (obj_get _ _); [|by intros [= <- <-]].
    pose proof (for_rooms_keys messageId (react messageId reaction) (messages s)) as Hk.
    destruct (for_rooms _ _ _) as [ms o]. by intros [= <- <-].
  - unfold mark_read. destruct (obj_get _ _) as [u|]; [|by intros [= <- <-]].
    pose proof (for_rooms_keys messageId (read messageId (username u)) (messages s)) as Hk.
    destruct (for_rooms _ _ _) as [ms o]. by intros [= <- <-].
  - unfold load_messages. destruct (or_empty _); [|done..].
    destruct callback; [|done]. by intros [= <- <-].
  - by intros [= <- <-].
Qed.

(** So in every state the process reaches, the logs are those of the
    three configured rooms, and any other name is unknown. *)
Lemma run_keys evs : ∀ s s' out,
  run s evs = Some (s', out) → obj_keys (messages s') = obj_keys (messages s).
Proof.
  induction evs as [|i evs IH]; intros s s' out; simpl.
  - by intros [= <- <-].
  - destruct (handle s i) as [s1 out1|] eqn:Hh; [|done].
    destruct (run s1 evs) as [[s2 out2]|] eqn:Hrun; [|done].
    intros [= <- <-]. rewrite (IH _ _ _ Hrun). by eapply handle_keys.
Qed.

Lemma reachable_rooms evs s out r :
  run init evs = Some (s, out) →
  is_Some (obj_get r (messages s)) ↔ r ∈ rooms.
Proof. intros Hrun. by rewrite obj_get_keys, (run_keys _ _ _ _ Hrun). Qed.

(** C4 (the code at the failing input).  [alice] sends a message, and
    then a file, to the room [lobby], which is not configured: each
    handler throws, nothing is acknowledged or emitted, and the run of
    the process ends there. *)
Theorem send_to_lobby_throws :
  ∃ s out,
    run init two_users = Some (s, out) ∧
    handle s to_lobby = TypeError ∧
    handle s file_to_lobby = TypeError ∧
    run init (two_users ++ [to_lobby]) = None ∧
    run init (two_users ++ [file_to_lobby]) = None.
Proof.
  eexists _, _. split; [vm_compute; reflexivity|].
  split_and!; vm_compute; reflexivity.
Qed.

(** ** Who receives what *)




(** ** Typing before joining *)

(** C9. A [typing] event on a socket with no entry in [users] returns
    with the state as it was and nothing emitted, whereas a
    [send_message] on the same socket goes through under the sender name
    [Anonymous]. *)
Theorem typing_before_join_is_dropped s sid data :
  obj_get sid (users s) = None →
  typing s sid data = Return s [] ∧
  ∀ env d cb log,
    let r := or_default (data_room d) "general" in
    obj_get r (messages s) = Some log →
    ∃ s' m,
      send_message s sid env d cb =
        Return s' ((if cb then [Callback (Ack_sent true (now env))] else [])
                   ++ [SocketTo r (E_receive_message m)]) ∧
      sender m = "Anonymous" ∧
      obj_get r (messages s') = Some (push_bounded log m).
Proof.
  intros Hnone. split.
  - unfold typing. by rewrite Hnone.
  - intros env d cb log r Hget. unfold send_message. fold r. rewrite Hget.
    eexists _, _. split_and!; [done| |apply obj_get_set_eq].
    unfold new_message, sender_name. simpl. by rewrite Hnone.
Qed.

(** ** The loop of [add_reaction] and [mark_read] *)

Lemma findIndex_Some mid log i m :
  findIndex mid log = Some (i, m) ↔
  log !! i = Some m ∧ id m = mid ∧
  ∀ j m0, log !! j = Some m0 → j < i → id m0 ≠ mid.
Proof. unfold findIndex. apply (list_find_Some (λ msg, id msg = mid)). Qed.

Lemma findIndex_None mid log :
  findIndex mid log = None ↔ ∀ m, m ∈ log → id m ≠ mid.
Proof.
  unfold findIndex. rewrite (list_find_None (λ msg, id msg = mid)), Forall_forall. done.
Qed.

(** Replacing the message found by one with the same id leaves it the
    one found. *)
Lemma findIndex_insert mid log i m m' :
  findIndex mid log = Some (i, m) → id m' = mid →
  findIndex mid (<[i := m']> log) = Some (i, m').
Proof.
  rewrite !findIndex_Some. intros (Hi & Hid & Hfirst) Hid'.
  assert (i < length log) by by eapply lookup_lt_Some.
  split_and!; [by apply list_lookup_insert_eq|done|].
  intros j m0 Hj Hlt. rewrite list_lookup_insert_ne in Hj by lia. eauto.
Qed.

(** [locate] finds the first message with the id, in loop order. *)
Lemma locate_Some mid ms p i m :
  locate mid ms = Some (p, i, m) →
  ∃ r log,
    ms !! p = Some (r, log) ∧ log !! i = Some m ∧ id m = mid ∧
    (∀ j m0, j < i → log !! j = Some m0 → id m0 ≠ mid) ∧
    (∀ p' r' log' m0,
       p' < p → ms !! p' = Some (r', log') → m0 ∈ log' → id m0 ≠ mid).
Proof.
  revert p. induction ms as [|[r log] rest IH]; intros p; simpl; [done|].
  destruct (findIndex mid log) as [[j mj]|] eqn:Hfind.
  - intros [= <- <- <-]. apply findIndex_Some in Hfind as (Hj & Hid & Hfirst).
    exists r, log. split_and!; [done..|eauto|]. intros; lia.
  - destruct (locate mid rest) as [[[p0 i0] m0]|]; [|done].
    simpl. intros [= <- <- <-].
    destruct (IH p0 eq_refl) as (r0 & log0 & Hp & Hi & Hid & Hfirst & Hrooms).
    exists r0, log0. split_and!; [done..|].
    intros [|p'] r' log' m' Hlt; simpl.
    + intros [= <- <-]. by apply findIndex_None.
    + apply Hrooms. lia.
Qed.

Lemma locate_None mid ms : locate mid ms = None ↔ ¬ present mid ms.
Proof.
  unfold present. induction ms as [|[r log] rest IH]; simpl.
  - split; [|done]. intros _ (? & ? & ? & []%elem_of_nil & _).
  - destruct (findIndex mid log) as [[j mj]|] eqn:Hfind.
    + split; [done|]. intros Habs. destruct Habs.
      apply findIndex_Some in Hfind as (Hj & Hid & _).
      exists r, log, mj. split_and!; [left|by eapply list_elem_of_lookup_2|done].
    + rewrite fmap_None, IH. rewrite findIndex_None in Hfind.
      split.
      * intros Hrest (r' & log' & m & Hin & Hm & Hid).
        apply elem_of_cons in Hin as [[= -> ->]|Hin]; [by eapply Hfind|].
        apply Hrest. eauto 6.
      * intros Hall (r' & log' & m & Hin & Hm & Hid).
        apply Hall. exists r', log', m. split_and!; [by right|done..].
Qed.

Lemma locate_present mid ms :
  present mid ms → ∃ p i m, locate mid ms = Some (p, i, m).
Proof.
  intros Hpresent. destruct (locate mid ms) as [[[p i] m]|] eqn:Hloc; [eauto|].
  by apply locate_None in Hloc.
Qed.

Lemma for_rooms_absent mid f ms :
  locate mid ms = None → for_rooms mid f ms = (ms, []).
Proof.
  induction ms as [|[r log] rest IH]; simpl; [done|].
  destruct (findIndex mid log) as [[j mj]|]; [done|].
  destruct (locate mid rest) as [[[p0 i0] m0]|]; [done|].
  intros _. by rewrite IH.
Qed.

Lemma for_rooms_found mid f ms p i m :
  locate mid ms = Some (p, i, m) →
  ∃ r log,
    ms !! p = Some (r, log) ∧
    for_rooms mid f ms = (<[p := (r, <[i := (f m).1]> log)]> ms, (f m).2).
Proof.
  revert p. induction ms as [|[r log] rest IH]; intros p; simpl; [done|].
  destruct (findIndex mid log) as [[j mj]|] eqn:Hfind.
  - intros [= <- <- <-]. exists r, log. split; [done|]. by destruct (f mj).
  - destruct (locate mid rest) as [[[p0 i0] m0]|]; [|done].
    simpl. intros [= <- <- <-].
    destruct (IH p0 eq_refl) as (r0 & log0 & Hp & Hloop).
    exists r0, log0. split; [done|]. by rewrite Hloop.
Qed.

(** After the loop has replaced the message found by one with the same
    id, that one is found at the same place. *)
Lemma locate_insert mid ms p i m r log m' :
  locate mid ms = Some (p, i, m) → ms !! p = Some (r, log) → id m' = mid →
  locate mid (<[p := (r, <[i := m']> log)]> ms) = Some (p, i, m').
Proof.
  revert p. induction ms as [|[r0 log0] rest IH]; intros p; simpl; [done|].
  destruct (findIndex mid log0) as [[j mj]|] eqn:Hfind.
  - intros [= <- <- <-] [= <- <-] Hid. simpl.
    by rewrite (findIndex_insert _ _ _ _ _ Hfind Hid).
  - destruct (locate mid rest) as [[[p0 i0] m0]|] eqn:Hloc; [|done].
    simpl. intros [= <- <- <-] Hp Hid. simpl. rewrite Hfind.
    by rewrite (IH p0 eq_refl Hp Hid).
Qed.

(** ** Reactions *)

Lemma reactions_write_other k v r other :
  other ≠ k → reactions_write k v r !! other = r !! other.
Proof.
  intros Hne. unfold reactions_write.
  destruct (r !! k); [|case_decide; [done|]]; by rewrite lookup_insert_ne.
Qed.

Lemma reactions_read_ordinary k r :
  k ∉ object_prototype_keys →
  reactions_read k r = from_option Own Undefined (r !! k).
Proof.
  intros Hk. unfold reactions_read.
  destruct (r !! k); [done|]. by rewrite decide_False.
Qed.

Lemma reactions_write_ordinary k v r :
  k ∉ object_prototype_keys → reactions_write k v r !! k = Some v.
Proof.
  intros Hk. unfold reactions_write.
  destruct (r !! k).
  - by rewrite lookup_insert_eq.
  - rewrite decide_False; [by rewrite lookup_insert_eq|].
    intros ->. apply Hk. unfold object_prototype_keys. set_solver.
Qed.

(** Whatever the symbol, the message [react] leaves differs from the one
    it took at most in the symbol's own entry. *)
Lemma react_same mid reaction m :
  same_but_reactions reaction m (react mid reaction m).1.
Proof.
  unfold react, same_but_reactions. simpl. split_and!; try done.
  intros other Hne. rewrite reactions_write_other by done.
  destruct (falsy _); [|done]. by rewrite reactions_write_other.
Qed.

(** For a symbol that [Object.prototype] does not define, [react] counts
    from the number the message holds, an absent or [NaN] entry
    counting as 0. *)
Lemma react_spec mid reaction m :
  reaction ∉ object_prototype_keys →
  (react mid reaction m).2 =
    [IoEmit (E_reaction_added mid reaction
               (Own (Num (count_of reaction m + 1))))] ∧
  count_of reaction (react mid reaction m).1 = (count_of reaction m + 1)%Z.
Proof.
  intros Hk. unfold react, count_of. simpl.
  set (r0 := default ∅ (reactions m)).
  set (c := match r0 !! reaction with Some (Num c) => c | _ => 0%Z end).
  set (r1 := if falsy _ then _ else _).
  assert (r1 !! reaction = Some (Num c)) as Hr1.
  { subst r1 c. rewrite reactions_read_ordinary by done.
    destruct (r0 !! reaction) as [[z|]|] eqn:Hz; simpl;
      [case_bool_decide as H0; [subst z|done]|..];
      by rewrite reactions_write_ordinary. }
  rewrite !reactions_read_ordinary by done.
  rewrite Hr1. simpl. rewrite reactions_write_ordinary by done. done.
Qed.

Lemma add_reaction_found s sid u mid reaction p i m :
  obj_get sid (users s) = Some u →
  locate mid (messages s) = Some (p, i, m) →
  ∃ r log,
    messages s !! p = Some (r, log) ∧
    add_reaction s sid mid reaction =
      Return
        (set_messages
           (λ _, <[p := (r, <[i := (react mid reaction m).1]> log)]> (messages s)) s)
        (react mid reaction m).2.
Proof.
  intros Hu Hloc. unfold add_reaction. rewrite Hu.
  destruct (for_rooms_found mid (react mid reaction) _ _ _ _ Hloc)
    as (r & log & Hp & ->).
  by exists r, log.
Qed.

Lemma handler_not_found s sid mid reaction :
  locate mid (messages s) = None →
  add_reaction s sid mid reaction = Return s [] ∧
  mark_read s sid mid = Return s [].
Proof.
  intros Hloc. unfold add_reaction, mark_read.
  destruct (obj_get sid (users s)) as [u|]; [|done].
  rewrite !for_rooms_absent by done. by destruct s.
Qed.

Lemma run_reactions mid reaction evs : ∀ s p i m,
  reaction ∉ object_prototype_keys →
  locate mid (messages s) = Some (p, i, m) →
  Forall (reacts mid reaction s) evs →
  ∃ s' m',
    run s evs =
      Some (s', (λ c, IoEmit (E_reaction_added mid reaction (Own (Num c)))) <$>
                  seqZ (count_of reaction m + 1) (Z.of_nat (length evs))) ∧
    users s' = users s ∧
    locate mid (messages s') = Some (p, i, m') ∧
    count_of reaction m' = (count_of reaction m + Z.of_nat (length evs))%Z.
Proof.
  induction evs as [|j evs IH]; intros s p i m Hk Hloc Hall.
  - exists s, m. simpl. split_and!; [done..|lia].
  - apply Forall_cons in Hall as [[Hwhat [u Hu]] Hall].
    destruct (add_reaction_found s (socket j) u mid reaction p i m Hu Hloc)
      as (r & log & Hp & Hadd).
    destruct (react_spec mid reaction m Hk) as (Hout & Hcount).
    pose proof (react_same mid reaction m) as Hsame.
    set (m1 := (react mid reaction m).1) in *.
    set (s1 := set_messages _ s) in Hadd.
    assert (locate mid (messages s1) = Some (p, i, m1)) as Hloc1.
    { apply (locate_insert mid _ p i m r log m1 Hloc Hp).
      destruct (locate_Some _ _ _ _ _ Hloc) as (_ & _ & _ & _ & <- & _).
      apply Hsame. }
    destruct (IH s1 p i m1 Hk Hloc1) as (s' & m' & Hrun & Hus & Hloc' & Hcount');
      [done|].
    exists s', m'. split_and!; [|done|done|simpl length; lia].
    cbn [run]. unfold handle. rewrite Hwhat, Hadd, Hrun, Hout, Hcount.
    rewrite (seqZ_cons (count_of reaction m + 1)) by (simpl; lia).
    rewrite fmap_cons. simpl app. do 4 f_equal.
    f_equal; simpl length; lia.
Qed.

(** Under a name that [Object.prototype] defines and the message does
    not hold, the guard [if (!message.reactions[reaction])] finds the
    inherited member and sets no 0: the increment stores [NaN], or
    nothing at all under [__proto__], and the count broadcast is what
    the name then reads as. *)
Lemma react_inherited mid reaction m :
  reaction ∈ object_prototype_keys →
  default ∅ (reactions m) !! reaction = None →
  (react mid reaction m).2 =
    [IoEmit (E_reaction_added mid reaction
               (if decide (reaction = "__proto__")
                then Inherited reaction else Own NaN))].
Proof.
  intros Hk Hnone. unfold react. simpl.
  set (r0 := default ∅ (reactions m)) in *.
  assert (reactions_read reaction r0 = Inherited reaction) as Hread.
  { unfold reactions_read. by rewrite Hnone, decide_True. }
  rewrite Hread. simpl. do 3 f_equal.
  unfold reactions_write. rewrite Hnone. case_decide as Hp.
  - exact Hread.
  - rewrite Hread. unfold reactions_read. by rewrite lookup_insert_eq.
Qed.

(** C7 (the code at the failing input).  [alice]'s message is in the log
    of [general] under the id 5 and both sockets are registered; three
    [add_reaction] events for it under the symbol [constructor]
    broadcast the counts [NaN], 1, 2, not 1, 2, 3: the first call finds
    [Object.prototype.constructor] where it looks for a count, sets no
    0 and increments a function. *)
Theorem add_reaction_inherited_symbol :
  present 5 (messages talking) ∧
  Forall (reacts 5 "constructor" talking) three_constructors ∧
  ∃ s',
    run talking three_constructors =
      Some (s', [IoEmit (E_reaction_added 5 "constructor" (Own NaN));
                 IoEmit (E_reaction_added 5 "constructor" (Own (Num 1)));
                 IoEmit (E_reaction_added 5 "constructor" (Own (Num 2)))]).
Proof.
  split_and!.
  - unfold present. exists "general", [hello], hello. split_and!.
    + apply (list_elem_of_lookup_2 _ 0). vm_compute. reflexivity.
    + apply (list_elem_of_lookup_2 _ 0). reflexivity.
    + reflexivity.
  - repeat (apply List.Forall_cons;
            [split; [reflexivity|eexists; vm_compute; reflexivity]|]).
    apply List.Forall_nil.
  - eexists. vm_compute. reflexivity.
Qed.

(** ** Read receipts *)

Lemma filter_absent (x : string) (l : list string) :
  x ∉ l → filter (λ y, y = x) l = [].
Proof.
  induction l as [|y l IH]; [done|].
  intros [Hne Hnot]%not_elem_of_cons. rewrite filter_cons_False by done. auto.
Qed.

Lemma set_readBy_same l m : readBy m = Some l → set_readBy l m = m.
Proof. destruct m. simpl. by intros ->. Qed.

Lemma read_spec mid name m :
  let before := default [] (readBy m) in
  (name ∉ before →
   read mid name m =
     (set_readBy (before ++ [name]) m, [IoEmit (E_message_read mid name)])) ∧
  (name ∈ before → read mid name m = (m, [])) ∧
  same_but_readBy m (read mid name m).1.
Proof.
  intros before. unfold read. fold before. split_and!.
  - intros Hnot. by rewrite decide_False.
  - intros Hin. rewrite decide_True by done. f_equal.
    apply set_readBy_same. unfold before in *.
    destruct (readBy m); [done|]. by apply elem_of_nil in Hin.
  - by case_decide.
Qed.

Lemma mark_read_found s sid u mid p i m :
  obj_get sid (users s) = Some u →
  locate mid (messages s) = Some (p, i, m) →
  ∃ r log,
    messages s !! p = Some (r, log) ∧ log !! i = Some m ∧
    mark_read s sid mid =
      Return
        (set_messages
           (λ _, <[p := (r, <[i := (read mid (username u) m).1]> log)]>
                   (messages s)) s)
        (read mid (username u) m).2.
Proof.
  intros Hu Hloc. unfold mark_read. rewrite Hu.
  destruct (for_rooms_found mid (read mid (username u)) _ _ _ _ Hloc)
    as (r & log & Hp & ->).
  destruct (locate_Some _ _ _ _ _ Hloc) as (r' & log' & Hp' & Hi & _).
  exists r, log. split_and!; [done| |done]. congruence.
Qed.

(** A receipt that is already recorded changes nothing. *)
Lemma mark_read_again s sid u mid p i m :
  obj_get sid (users s) = Some u →
  locate mid (messages s) = Some (p, i, m) →
  username u ∈ default [] (readBy m) →
  mark_read s sid mid = Return s [].
Proof.
  intros Hu Hloc Hin.
  destruct (mark_read_found s sid u mid p i m Hu Hloc) as (r & log & Hp & Hi & ->).
  destruct (read_spec mid (username u) m) as (_ & Hagain & _).
  rewrite (Hagain Hin). simpl.
  rewrite (list_insert_id log), (list_insert_id (messages s)) by done.
  by destruct s.
Qed.

Lemma run_marks_again mid name s p i m evs :
  locate mid (messages s) = Some (p, i, m) →
  name ∈ default [] (readBy m) →
  Forall (marks mid name s) evs →
  run s evs = Some (s, []).
Proof.
  intros Hloc Hin. induction 1 as [|j evs [Hwhat Hname] _ IH]; [done|].
  cbn [run]. unfold handle. rewrite Hwhat.
  apply fmap_Some in Hname as (u & Hu & ->).
  by rewrite (mark_read_again s (socket j) u mid p i m Hu Hloc Hin), IH.
Qed.

(** C6. For a message id that some room log holds and a registered user
    [u]: a [mark_read] when [u] is not yet in [readBy] appends [u] to it
    and broadcasts [message_read]; a [mark_read] when [u] is already
    there changes nothing and broadcasts nothing; so after the first
    call [u] is in [readBy] exactly once, and every further [mark_read]
    of the message for [u] (from any of [u]'s sockets) leaves the state
    as it is and is silent. *)
Theorem mark_read_idempotent s sid u mid :
  obj_get sid (users s) = Some u →
  present mid (messages s) →
  ∃ p i m s1 m1,
    let name := username u in
    let before := default [] (readBy m) in
    let after := if decide (name ∈ before) then before else before ++ [name] in
    locate mid (messages s) = Some (p, i, m) ∧
    mark_read s sid mid =
      Return s1 (if decide (name ∈ before) then []
                 else [IoEmit (E_message_read mid name)]) ∧
    locate mid (messages s1) = Some (p, i, m1) ∧
    readBy m1 = Some after ∧
    (name ∈ before → s1 = s) ∧
    (name ∉ before → length (filter (λ x, x = name) after) = 1) ∧
    (∀ evs, Forall (marks mid name s1) evs → run s1 evs = Some (s1, [])).
Proof.
  intros Hu (p & i & m & Hloc)%locate_present.
  destruct (mark_read_found s sid u mid p i m Hu Hloc)
    as (r & log & Hp & Hi & Hmark).
  destruct (read_spec mid (username u) m) as (Hfirst & Hagain & Hsame).
  set (m1 := (read mid (username u) m).1) in *.
  set (s1 := set_messages _ s) in Hmark.
  exists p, i, m, s1, m1. intros name before after.
  assert (locate mid (messages s1) = Some (p, i, m1)) as Hloc1.
  { apply (locate_insert mid _ p i m r log m1 Hloc Hp).
    destruct (locate_Some _ _ _ _ _ Hloc) as (_ & _ & _ & _ & <- & _).
    apply Hsame. }
  assert (readBy m1 = Some after ∧ name ∈ after) as [Hafter Hin].
  { unfold after, m1. case_decide as Hdec.
    - rewrite (Hagain Hdec). simpl. split; [|done]. unfold before in Hdec.
      destruct (readBy m); [done|]. by apply elem_of_nil in Hdec.
    - rewrite (Hfirst Hdec). simpl. split; [done|].
      apply elem_of_app. right. by left. }
  split_and!; [done| |done|done| | |].
  - rewrite Hmark. f_equal. unfold after. case_decide as Hdec.
    + by rewrite (Hagain Hdec).
    + by rewrite (Hfirst Hdec).
  - intros Hdec. unfold s1, m1. rewrite (Hagain Hdec). simpl.
    rewrite (list_insert_id log), (list_insert_id (messages s)) by done.
    by destruct s.
  - intros Hdec. unfold after. rewrite decide_False by done.
    rewrite filter_app, length_app.
    by rewrite filter_absent, filter_cons_True.
  - intros evs Hevs. eapply run_marks_again; [done| |done].
    by rewrite Hafter.
Qed.

(** ** Frame of the loop *)

Lemma loop_touches_first s mid f (same : message → message → Prop) :
  (∀ m, same m (f m).1) →
  touches_first mid same s
    (set_messages (λ _, (for_rooms mid f (messages s)).1) s).
Proof.
  intros Hsame. unfold touches_first. split_and!; [done..|]. simpl.
  destruct (locate mid (messages s)) as [[[p i] m]|] eqn:Hloc.
  - right. destruct (for_rooms_found mid f _ _ _ _ Hloc) as (r & log & Hp & ->).
    destruct (locate_Some _ _ _ _ _ Hloc)
      as (r' & log' & Hp' & Hi & Hid & Hfirst & Hrooms).
    assert (r' = r ∧ log' = log) as [-> ->] by (split; congruence).
    exists p, i, r, log, m, (f m).1. by split_and!.
  - left. by rewrite for_rooms_absent.
Qed.

(** C10. [add_reaction] and [mark_read] change at most one message: the
    first with the id, rooms being visited in the order of the keys of
    [messages] and each log from its start; every other message of every
    room, that message's other fields (for [add_reaction] also every
    entry of its [reactions] under another symbol), and the rest of the
    state are as before.  In every state the process reaches, the keys
    of [messages] are [general], [random], [help], in this order. *)
Theorem reaction_and_receipt_touch_one_message s sid mid reaction :
  (∃ s' out,
     add_reaction s sid mid reaction = Return s' out ∧
     touches_first mid (same_but_reactions reaction) s s') ∧
  (∃ s' out,
     mark_read s sid mid = Return s' out ∧
     touches_first mid same_but_readBy s s') ∧
  (∀ evs s0 out0,
     run init evs = Some (s0, out0) → obj_keys (messages s0) = rooms).
Proof.
  split_and!; [| |intros evs s0 out0 Hrun; by rewrite (run_keys _ _ _ _ Hrun)].
  - unfold add_reaction. destruct (obj_get sid (users s)) as [u|].
    + pose proof (loop_touches_first s mid (react mid reaction)
        (same_but_reactions reaction) (react_same mid reaction)).
      destruct (for_rooms _ _ _) as [ms out]. eauto.
    + exists s, []. split; [done|]. unfold touches_first. by split_and!; [..|left].
  - unfold mark_read. destruct (obj_get sid (users s)) as [u|].
    + pose proof (loop_touches_first s mid (read mid (username u))
        same_but_readBy (λ m, proj2 (proj2 (read_spec mid (username u) m)))).
      destruct (for_rooms _ _ _) as [ms out]. eauto.
    + exists s, []. split; [done|]. unfold touches_first. by split_and!; [..|left].
Qed.

(** ** The bound holds in every state the process reaches *)

Lemma obj_set_Forall {V} (P : string * V → Prop) k v (o : obj V) :
  Forall P o → P (k, v) → Forall P (obj_set k v o).
Proof.
  intros Ho Hv. induction Ho as [|[k' v'] o Hx Ho IH]; simpl.
  - by constructor.
  - case_decide; by constructor.
Qed.

Lemma obj_get_Forall {V} (P : string * V → Prop) k v (o : obj V) :
  Forall P o → obj_get k o = Some v → P (k, v).
Proof.
  induction 1 as [|[k' v'] o Hx Ho IH]; simpl; [done|].
  case_decide as Hk; [|done]. by intros [= <-]; subst k'.
Qed.

Lemma for_rooms_bounded mid f ms :
  Forall (λ e : string * list message, length e.2 ≤ 100) ms →
  Forall (λ e : string * list message, length e.2 ≤ 100) (for_rooms mid f ms).1.
Proof.
  induction 1 as [|[r log] rest Hx Hrest IH]; simpl; [done|].
  destruct (findIndex mid log) as [[i m]|].
  - destruct (f m) as [m' out]. simpl. constructor; [|done].
    simpl in *. by rewrite length_insert.
  - destruct (for_rooms mid f rest) as [rest' out]. simpl in *.
    by constructor.
Qed.

Lemma handle_bounded s i s' out :
  bounded s → handle s i = Return s' out → bounded s'.
Proof.
  unfold bounded. intros Hb.
  destruct i as [sid env ev]. unfold handle. simpl. destruct ev; simpl.
  - by intros [= <- <-].
  - by intros [= <- <-].
  - unfold send_message. destruct (obj_get _ _) as [log|] eqn:Hget; [|done].
    intros [= <- <-]. simpl. apply obj_set_Forall; [done|]. simpl.
    apply length_push_bounded.
    apply (obj_get_Forall (λ e, length e.2 ≤ 100) _ _ _ Hb Hget).
  - unfold typing. destruct (obj_get _ _); [|by intros [= <- <-]].
    intros [= <- <-]. by destruct (data_isTyping data).
  - by intros [= <- <-].
  - unfold join_room. destruct (obj_get _ _); by intros [= <- <-].
  - unfold send_file. destruct (obj_get _ _) as [log|] eqn:Hget; [|done].
    intros [= <- <-]. simpl. apply obj_set_Forall; [done|]. simpl.
    apply length_push_bounded.
    apply (obj_get_Forall (λ e, length e.2 ≤ 100) _ _ _ Hb Hget).
  - unfold add_reaction. destruct (obj_get _ _); [|by intros [= <- <-]].
    pose proof (for_rooms_bounded messageId (react messageId reaction) _ Hb).
    destruct (for_rooms _ _ _) as [ms o]. by intros [= <- <-].
  - unfold mark_read. destruct (obj_get _ _) as [u|]; [|by intros [= <- <-]].
    pose proof (for_rooms_bounded messageId (read messageId (username u)) _ Hb).
    destruct (for_rooms _ _ _) as [ms o]. by intros [= <- <-].
  - unfold load_messages. destruct (or_empty _); [|done..].
    destruct callback; [|done]. by intros [= <- <-].
  - by intros [= <- <-].
Qed.

Lemma reachable_bounded evs : ∀ s s' out,
  bounded s → run s evs = Some (s', out) → bounded s'.
Proof.
  induction evs as [|i evs IH]; intros s s' out Hb; simpl.
  - by intros [= <- <-].
  - destruct (handle s i) as [s1 out1|] eqn:Hh; [|done].
    destruct (run s1 evs) as [[s2 out2]|] eqn:Hrun; [|done].
    intros [= <- <-]. eapply IH; [|done]. by eapply handle_bounded.
Qed.

Lemma init_bounded : bounded init.
Proof. unfold bounded. simpl. repeat constructor; simpl; lia. Qed.

Lemma reachable_log_bounded evs s out r log :
  run init evs = Some (s, out) →
  obj_get r (messages s) = Some log → length log ≤ 100.
Proof.
  intros Hrun Hget.
  pose proof (reachable_bounded evs init s out init_bounded Hrun) as Hb.
  apply (obj_get_Forall (λ e, length e.2 ≤ 100) _ _ _ Hb Hget).
Qed.

(** ** The theorems at sample inputs *)


(** A socket that never joined reports typing at the start. *)
Lemma typing_before_join_witness :
  typing init "sX" (TypingData true None) = Return init [].
Proof.
  destruct (typing_before_join_is_dropped init "sX" (TypingData true None))
    as [Htyping _].
  - reflexivity.
  - exact Htyping.
Defined.

(** The log of [general] holds [alice]'s message under the id 5. *)
Lemma talking_present : present 5 (messages talking).
Proof.
  unfold present. eexists _, _, _. split_and!.
  - eapply (list_elem_of_lookup_2 _ 0). vm_compute. reflexivity.
  - eapply (list_elem_of_lookup_2 _ 0). reflexivity.
  - reflexivity.
Defined.

(** [bob] reads [alice]'s message for the first time. *)
Lemma mark_read_idempotent_witness :
  ∃ s1, mark_read talking "sB" 5 = Return s1 [IoEmit (E_message_read 5 "bob")].
Proof.
  destruct (mark_read_idempotent talking "sB" (User "bob" "sB" "general") 5)
    as (p & i & m & s1 & m1 & Hloc & Hmark & _).
  - vm_compute. reflexivity.
  - exact talking_present.
  - vm_compute in Hloc. injection Hloc as <- <- <-.
    exists s1. rewrite Hmark. vm_compute. reflexivity.
Defined.


(** [bob] puts a thumb on [alice]'s message, which has two hearts: the
    hearts stay two, and the text, the sender and the empty [readBy]
    stay as well. *)
Lemma touch_one_message_witness :
  ∃ s' out m',
    add_reaction hearted "sB" 5 "thumbsup" = Return s' out ∧
    users s' = users hearted ∧ adapter s' = adapter hearted ∧
    messages s' = [("general", [m']); ("random", []); ("help", [])] ∧
    default ∅ (reactions m') !! "heart" = Some (Num 2) ∧
    body m' = body hello ∧ sender m' = "alice" ∧ readBy m' = Some [].
Proof.
  destruct (reaction_and_receipt_touch_one_message hearted "sB" 5 "thumbsup")
    as ((s' & out & Hadd & Husers & _ & Hadapter & Hmessages) & _).
  exists s', out.
  destruct Hmessages as [Hsame|(p & i & r & log & m & m' & Hp & Hi & _ & _ & _
                                  & Hm' & Hmessages)].
  - eexists. split_and!; [exact Hadd|exact Husers|exact Hadapter| |..].
    + rewrite Hsame. vm_compute. reflexivity.
    + reflexivity.
    + reflexivity.
    + reflexivity.
    + reflexivity.
  - exists m'.
    assert (p = 0 ∧ i = 0) as [-> ->].
    { destruct p as [|[|[|p]]]; vm_compute in Hp; try discriminate Hp;
        injection Hp as <- <-; try discriminate Hi.
      by destruct i as [|[|i]]; [|discriminate Hi..]. }
    vm_compute in Hp. injection Hp as <- <-.
    injection Hi as <-.
    destruct Hm' as (_ & Hsender & _ & _ & _ & Hbody & HreadBy & Hothers).
    split_and!; [exact Hadd|exact Husers|exact Hadapter|..].
    + rewrite Hmessages. vm_compute. reflexivity.
    + rewrite (Hothers "heart") by discriminate. vm_compute. reflexivity.
    + rewrite Hbody. reflexivity.
    + rewrite Hsender. reflexivity.
    + rewrite HreadBy. reflexivity.
Defined.

(** * Further properties of the handlers and of the client *)

(** ** Dictionaries without repeated keys *)

Section obj_nodup.
Context {V : Type}.
Implicit Types (o : obj V) (k : string) (v : V).

Lemma obj_keys_set_elem k k' v o :
  k' ∈ obj_keys (obj_set k v o) ↔ k' = k ∨ k' ∈ obj_keys o.
Proof.
  unfold obj_keys. induction o as [|[k0 v0] o IH]; simpl.
  - rewrite list_elem_of_singleton. split; [by left|]. intros [?|?%elem_of_nil]; done.
  - case_decide as Hk; simpl.
    + subst k0. rewrite !elem_of_cons. split; [intros [?|?]; auto|].
      intros [?|[?|?]]; auto.
    + rewrite !elem_of_cons, IH. split; [intros [?|[?|?]]; auto|].
      intros [?|[?|?]]; auto.
Qed.

Lemma obj_set_NoDup k v o : NoDup (obj_keys o) → NoDup (obj_keys (obj_set k v o)).
Proof.
  unfold obj_keys. induction o as [|[k0 v0] o IH]; simpl; intros Hnd.
  - apply NoDup_singleton.
  - apply NoDup_cons in Hnd as [Hnot Hnd]. case_decide as Hk; simpl.
    + subst k0. by apply NoDup_cons.
    + apply NoDup_cons. split; [|by apply IH].
      intros [->|Hin]%(obj_keys_set_elem k k0 v o); done.
Qed.

Lemma obj_keys_delete_elem k k' o :
  k' ∈ obj_keys (obj_delete k o) → k' ∈ obj_keys o.
Proof.
  unfold obj_keys. induction o as [|[k0 v0] o IH]; simpl; [done|].
  case_decide as Hk; simpl.
  - by right.
  - rewrite !elem_of_cons. intros [->|Hin]; [by left|right; by apply IH].
Qed.

Lemma obj_delete_NoDup k o :
  NoDup (obj_keys o) → NoDup (obj_keys (obj_delete k o)).
Proof.
  unfold obj_keys. induction o as [|[k0 v0] o IH]; simpl; intros Hnd; [done|].
  apply NoDup_cons in Hnd as [Hnot Hnd]. case_decide as Hk; simpl; [done|].
  apply NoDup_cons. split; [|by apply IH].
  intros Hin%(obj_keys_delete_elem k k0 o). done.
Qed.

Lemma obj_get_None k o : obj_get k o = None ↔ k ∉ obj_keys o.
Proof.
  rewrite <-obj_get_keys, eq_None_not_Some. done.
Qed.

(** [delete o[k]] and then [o[k]] is [undefined]. *)
Lemma obj_get_delete_eq k o :
  NoDup (obj_keys o) → obj_get k (obj_delete k o) = None.
Proof.
  unfold obj_keys. induction o as [|[k0 v0] o IH]; simpl; intros Hnd; [done|].
  apply NoDup_cons in Hnd as [Hnot Hnd]. case_decide as Hk; simpl.
  - subst k0. by apply obj_get_None.
  - rewrite decide_False by done. by apply IH.
Qed.

Lemma obj_get_delete_ne k k' o :
  k ≠ k' → obj_get k' (obj_delete k o) = obj_get k' o.
Proof.
  intros Hne. induction o as [|[k0 v0] o IH]; simpl; [done|].
  destruct (decide (k = k0)) as [->|Hk]; simpl.
  - by rewrite decide_False.
  - by rewrite IH.
Qed.

Lemma obj_delete_absent k o : obj_get k o = None → obj_delete k o = o.
Proof.
  induction o as [|[k0 v0] o IH]; simpl; [done|].
  case_decide as Hk; [done|]. intros Hget. by rewrite IH.
Qed.



Lemma obj_get_elem k v o :
  NoDup (obj_keys o) → obj_get k o = Some v ↔ (k, v) ∈ o.
Proof.
  unfold obj_keys. induction o as [|[k0 v0] o IH]; simpl; intros Hnd.
  - split; [done|]. by intros ?%elem_of_nil.
  - apply NoDup_cons in Hnd as [Hnot Hnd]. rewrite elem_of_cons.
    case_decide as Hk.
    + subst k0. split; [intros [= ->]; by left|].
      intros [[= ->]|Hin]; [done|]. destruct Hnot.
      apply list_elem_of_fmap. by exists (k, v).
    + rewrite IH by done. split; [by right|]. by intros [[= -> ->]|?].
Qed.
End obj_nodup.

(** ** What each handler leaves alone *)

(** Only [user_join], [typing], [join_room] and [disconnect] write to
    [users] or [typingUsers]. *)
Lemma handle_sessions_frame s i s' out :
  handle s i = Return s' out →
  match what i with
  | UserJoin _ | Typing _ | JoinRoom _ | Disconnect => True
  | _ => users s' = users s ∧ typingUsers s' = typingUsers s
  end.
Proof.
  destruct i as [sid env ev]. unfold handle. simpl. destruct ev; simpl; try done.
  - by intros [= <- <-].
  - unfold send_message. destruct (obj_get _ _); [|done]. by intros [= <- <-].
  - by intros [= <- <-].
  - unfold send_file. destruct (obj_get _ _); [|done]. by intros [= <- <-].
  - unfold add_reaction. destruct (obj_get _ _); [|by intros [= <- <-]].
    destruct (for_rooms _ _ _) as [ms o]. by intros [= <- <-].
  - unfold mark_read. destruct (obj_get _ _); [|by intros [= <- <-]].
    destruct (for_rooms _ _ _) as [ms o]. by intros [= <- <-].
  - unfold load_messages. destruct (or_empty _); [|done..].
    destruct callback; [|done]. by intros [= <- <-].
Qed.

(** Only [user_join], [join_room] and [disconnect] write to [users]. *)
Lemma handle_users_frame s i s' out :
  handle s i = Return s' out →
  match what i with
  | UserJoin _ | JoinRoom _ | Disconnect => True
  | _ => users s' = users s
  end.
Proof.
  intros Hh. pose proof (handle_sessions_frame s i s' out Hh) as Hframe.
  destruct i as [sid env ev]. unfold handle in Hh. simpl in *.
  destruct ev; simpl in *; try done; try apply Hframe.
  unfold typing in Hh. destruct (obj_get _ _); [|by injection Hh as <- <-].
  injection Hh as <- <-. by destruct (data_isTyping data).
Qed.

(** Only [connection], [user_join], [join_room] and [disconnect] change
    which rooms a socket is in. *)
Lemma handle_adapter_frame s i s' out :
  handle s i = Return s' out →
  match what i with
  | Connection | UserJoin _ | JoinRoom _ | Disconnect => True
  | _ => adapter s' = adapter s
  end.
Proof.
  destruct i as [sid env ev]. unfold handle. simpl. destruct ev; simpl; try done.
  - unfold send_message. destruct (obj_get _ _); [|done]. by intros [= <- <-].
  - unfold typing. destruct (obj_get _ _); [|by intros [= <- <-]].
    intros [= <- <-]. by destruct (data_isTyping data).
  - by intros [= <- <-].
  - unfold send_file. destruct (obj_get _ _); [|done]. by intros [= <- <-].
  - unfold add_reaction. destruct (obj_get _ _); [|by intros [= <- <-]].
    destruct (for_rooms _ _ _) as [ms o]. by intros [= <- <-].
  - unfold mark_read. destruct (obj_get _ _); [|by intros [= <- <-]].
    destruct (for_rooms _ _ _) as [ms o]. by intros [= <- <-].
  - unfold load_messages. destruct (or_empty _); [|done..].
    destruct callback; [|done]. by intros [= <- <-].
Qed.

(** ** Sessions *)

Lemma obj_get_set_is_Some {V} k k' (v : V) (o : obj V) :
  is_Some (obj_get k' o) → is_Some (obj_get k' (obj_set k v o)).
Proof.
  intros Hsome. destruct (decide (k = k')) as [->|Hne].
  - rewrite obj_get_set_eq. eauto.
  - by rewrite obj_get_set_ne.
Qed.

Lemma sessions_ok_ext s s' :
  users s' = users s → typingUsers s' = typingUsers s →
  sessions_ok s → sessions_ok s'.
Proof. unfold sessions_ok. by intros -> ->. Qed.

Lemma handle_sessions_ok s i s' out :
  sessions_ok s → handle s i = Return s' out → sessions_ok s'.
Proof.
  intros Hok Hh.
  pose proof (handle_sessions_frame s i s' out Hh) as Hframe.
  destruct i as [sid env ev]. unfold handle in Hh. simpl in *.
  destruct ev; simpl in *;
    try (match type of Hframe with
         | _ ∧ _ => destruct Hframe as [Hus Hts]; by eapply sessions_ok_ext
         end);
    destruct Hok as (Hu & Ht & Hid & Hsub).
  - (* user_join *)
    injection Hh as <- <-. unfold sessions_ok, socket_join. simpl. split_and!.
    + by apply obj_set_NoDup.
    + done.
    + intros k u. destruct (decide (sid = k)) as [->|Hne].
      * rewrite obj_get_set_eq. by intros [= <-].
      * rewrite obj_get_set_ne by done. apply Hid.
    + intros k Hk. apply obj_get_set_is_Some. by apply Hsub.
  - (* typing *)
    unfold typing in Hh. destruct (obj_get sid (users s)) as [u|] eqn:Hreg.
    + injection Hh as <- <-. unfold sessions_ok.
      destruct (data_isTyping data); simpl; split_and!; try done.
      * by apply obj_set_NoDup.
      * intros k. destruct (decide (sid = k)) as [->|Hne].
        -- intros _. by rewrite Hreg.
        -- rewrite obj_get_set_ne by done. apply Hsub.
      * by apply obj_delete_NoDup.
      * intros k. destruct (decide (sid = k)) as [->|Hne].
        -- rewrite obj_get_delete_eq by done. by intros [? ?].
        -- rewrite obj_get_delete_ne by done. apply Hsub.
    + injection Hh as <- <-. by split_and!.
  - (* join_room *)
    unfold join_room in Hh. destruct (obj_get sid (users s)) as [u|] eqn:Hreg.
    + injection Hh as <- <-. unfold sessions_ok, socket_join, socket_leave.
      simpl. split_and!.
      * by apply obj_set_NoDup.
      * done.
      * intros k u'. destruct (decide (sid = k)) as [->|Hne].
        -- rewrite obj_get_set_eq. intros [= <-]. simpl. by apply Hid.
        -- rewrite obj_get_set_ne by done. apply Hid.
      * intros k Hk. apply obj_get_set_is_Some. by apply Hsub.
    + injection Hh as <- <-. by split_and!.
  - (* disconnect *)
    injection Hh as <- <-. unfold sessions_ok. simpl. split_and!.
    + by apply obj_delete_NoDup.
    + by apply obj_delete_NoDup.
    + intros k u. destruct (decide (sid = k)) as [->|Hne].
      * by rewrite obj_get_delete_eq.
      * rewrite obj_get_delete_ne by done. apply Hid.
    + intros k. destruct (decide (sid = k)) as [->|Hne].
      * rewrite obj_get_delete_eq by done. by intros [? ?].
      * rewrite !obj_get_delete_ne by done. apply Hsub.
Qed.

Lemma run_sessions_ok evs : ∀ s s' out,
  sessions_ok s → run s evs = Some (s', out) → sessions_ok s'.
Proof.
  induction evs as [|i evs IH]; intros s s' out Hok; simpl.
  - by intros [= <- <-].
  - destruct (handle s i) as [s1 out1|] eqn:Hh; [|done].
    destruct (run s1 evs) as [[s2 out2]|] eqn:Hrun; [|done].
    intros [= <- <-]. eapply IH; [|done]. by eapply handle_sessions_ok.
Qed.

Lemma init_sessions_ok : sessions_ok init.
Proof.
  unfold sessions_ok. simpl. split_and!; try apply NoDup_nil_2; try done.
Qed.

Lemma reachable_sessions_ok s : reachable s → sessions_ok s.
Proof.
  intros (evs & out & Hrun). eapply run_sessions_ok; [|done].
  apply init_sessions_ok.
Qed.

(** ** Joining, typing, changing rooms, leaving *)

Lemma obj_get_values {V} k (v : V) (o : obj V) :
  obj_get k o = Some v → v ∈ obj_values o.
Proof.
  unfold obj_values. induction o as [|[k0 v0] o IH]; simpl; [done|].
  case_decide; [intros [= ->]; by left|]. intros Hget. right. by apply IH.
Qed.

Lemma obj_values_elem {V} (v : V) (o : obj V) :
  NoDup (obj_keys o) → v ∈ obj_values o ↔ ∃ k, obj_get k o = Some v.
Proof.
  intros Hnd. split.
  - unfold obj_values. intros ([k v'] & -> & Hin)%list_elem_of_fmap.
    exists k. by apply obj_get_elem.
  - intros [k Hk]. by eapply obj_get_values.
Qed.

Lemma obj_delete_set_absent {V} k (v : V) (o : obj V) :
  obj_get k o = None → obj_delete k (obj_set k v o) = o.
Proof.
  induction o as [|[k0 v0] o IH]; simpl.
  - by rewrite decide_True.
  - case_decide as Hk; [done|]. intros Hget. simpl.
    rewrite decide_False by done. by rewrite IH.
Qed.

Lemma rooms_alter_union (m : gmap string (gset string)) sid r t r' :
  r' ∈ default ∅ (m !! t) →
  r' ∈ default ∅ (alter (λ rs, rs ∪ {[ r ]}) sid m !! t).
Proof.
  destruct (decide (sid = t)) as [->|Hne].
  - rewrite lookup_alter_eq. destruct (m !! t); simpl; [|done].
    intros Hin. apply elem_of_union. by left.
  - by rewrite lookup_alter_ne.
Qed.

(** X1. [user_join] on a connected socket stores
    [{username, id, currentRoom: 'general'}] under the socket id (in
    place when the socket had joined before) and leaves the other
    sessions, the logs and the typing entries alone; the socket is then
    in the room [general], and no socket is taken out of any room it was
    in (a socket that joins again from another room stays in that room
    too); every connected socket, the joining one included, receives
    [user_list], which holds the new entry, and then [user_joined]. *)
Theorem user_join_registers s sid name :
  is_Some (adapter s !! sid) →
  ∃ s',
    user_join s sid name =
      Return s' [IoEmit (E_user_list (api_users s'));
                 IoEmit (E_user_joined name sid)] ∧
    obj_get sid (users s') = Some (User name sid "general") ∧
    (∀ k, k ≠ sid → obj_get k (users s') = obj_get k (users s)) ∧
    User name sid "general" ∈ api_users s' ∧
    in_room s' sid "general" ∧
    (∀ t r, in_room s t r → in_room s' t r) ∧
    messages s' = messages s ∧ typingUsers s' = typingUsers s ∧
    ∀ t, inbox s' sid [IoEmit (E_user_list (api_users s'));
                       IoEmit (E_user_joined name sid)] t =
         if connected s t
         then [Got (E_user_list (api_users s')); Got (E_user_joined name sid)]
         else [].
Proof.
  intros [rs Hrs]. eexists. split; [reflexivity|].
  unfold socket_join. simpl. split_and!.
  - apply obj_get_set_eq.
  - intros k Hk. by apply obj_get_set_ne.
  - apply (obj_get_values sid). apply obj_get_set_eq.
  - unfold in_room. simpl. rewrite bool_decide_spec, lookup_alter_eq, Hrs.
    simpl. apply elem_of_union. right. by apply elem_of_singleton.
  - intros t r. unfold in_room. simpl. rewrite !bool_decide_spec.
    apply rooms_alter_union.
  - done.
  - done.
  - intros t. unfold inbox, connected. simpl.
    assert (is_Some (alter (λ rs0 : gset string, rs0 ∪ {["general"]}) sid
                       (adapter s) !! t) ↔ is_Some (adapter s !! t)) as Hiff.
    { destruct (decide (sid = t)) as [->|Hne].
      - rewrite lookup_alter_eq, fmap_is_Some. done.
      - by rewrite lookup_alter_ne. }
    rewrite (bool_decide_ext _ _ Hiff). by destruct (bool_decide _).
Qed.

(** X2. A registered socket with no typing entry reports that it types
    and then that it stopped: in between its entry holds its name and
    the room ([general] when none is given), and afterwards the whole
    state is as it was before. *)
Theorem typing_start_stop_round_trip s sid u r :
  obj_get sid (users s) = Some u →
  obj_get sid (typingUsers s) = None →
  ∃ s1 out1 s2 out2,
    typing s sid (TypingData true r) = Return s1 out1 ∧
    obj_get sid (typingUsers s1) =
      Some (TypingUser (username u) (or_default r "general")) ∧
    typing s1 sid (TypingData false r) = Return s2 out2 ∧
    s2 = s.
Proof.
  intros Hu Ht. unfold typing. rewrite Hu. simpl.
  eexists _, _, _, _. split; [reflexivity|]. split; [apply obj_get_set_eq|].
  simpl. rewrite Hu. split; [reflexivity|]. unfold set_typingUsers. simpl.
  rewrite obj_delete_set_absent by done. by destruct s.
Qed.

(** X3. [disconnect] in a state the process reaches: the socket's
    entries in [users] and [typingUsers] are gone, [GET /api/users]
    shows no user with its id, the socket is in no room and gets none of
    the broadcasts, [user_left] is sent only when the socket was
    registered, and the other sessions and the logs are untouched. *)
Theorem disconnect_removes_session s sid :
  reachable s →
  ∃ s',
    disconnect s sid =
      Return s'
        (match obj_get sid (users s) with
         | Some u => [IoEmit (E_user_left (username u) sid)]
         | None => []
         end ++
         [IoEmit (E_user_list (api_users s'));
          IoEmit (E_typing_users (roomTypingUsers s' "general") "general")]) ∧
    obj_get sid (users s') = None ∧
    obj_get sid (typingUsers s') = None ∧
    (∀ u, u ∈ api_users s' → user_id u ≠ sid) ∧
    connected s' sid = false ∧
    (∀ r, in_room s' sid r = false) ∧
    (∀ p, delivered s' sid (IoEmit p) sid = None) ∧
    (∀ k, k ≠ sid →
       obj_get k (users s') = obj_get k (users s) ∧
       obj_get k (typingUsers s') = obj_get k (typingUsers s) ∧
       adapter s' !! k = adapter s !! k) ∧
    messages s' = messages s.
Proof.
  intros (Hu & Ht & Hid & Hsub)%reachable_sessions_ok.
  eexists. split; [reflexivity|]. simpl.
  assert (obj_get sid (obj_delete sid (users s)) = None) as Hgone
    by by apply obj_get_delete_eq.
  split_and!.
  - done.
  - by apply obj_get_delete_eq.
  - unfold api_users. simpl. intros u Hin Heq.
    apply obj_values_elem in Hin as [k Hk]; [|by apply obj_delete_NoDup].
    destruct (decide (sid = k)) as [<-|Hne]; [congruence|].
    rewrite obj_get_delete_ne in Hk by done. apply Hid in Hk. congruence.
  - unfold connected. simpl. apply bool_decide_eq_false.
    rewrite lookup_delete_eq. by intros [? ?].
  - intros r. unfold in_room. simpl. apply bool_decide_eq_false.
    rewrite lookup_delete_eq. simpl. apply not_elem_of_empty.
  - intros p. unfold delivered, connected. simpl.
    rewrite bool_decide_eq_false_2; [done|].
    rewrite lookup_delete_eq. by intros [? ?].
  - intros k Hk. split_and!.
    + by apply obj_get_delete_ne.
    + by apply obj_get_delete_ne.
    + by apply lookup_delete_ne.
  - done.
Qed.

(** X4. [disconnect] twice is [disconnect] once: the second one finds
    nothing to remove, returns the same state and sends [user_list] and
    [typing_users] without a [user_left]. *)
Theorem disconnect_idempotent s sid :
  reachable s →
  ∃ s1 out1,
    disconnect s sid = Return s1 out1 ∧
    disconnect s1 sid =
      Return s1
        [IoEmit (E_user_list (api_users s1));
         IoEmit (E_typing_users (roomTypingUsers s1 "general") "general")].
Proof.
  intros (Hu & Ht & Hid & Hsub)%reachable_sessions_ok.
  eexists _, _. split; [reflexivity|].
  unfold disconnect. simpl.
  assert (obj_get sid (obj_delete sid (users s)) = None) as Hgone
    by by apply obj_get_delete_eq.
  assert (obj_get sid (obj_delete sid (typingUsers s)) = None) as Hgone'
    by by apply obj_get_delete_eq.
  rewrite Hgone. simpl. unfold set_typingUsers, set_users, set_adapter. simpl.
  rewrite (obj_delete_absent sid (obj_delete sid (users s)) Hgone).
  rewrite (obj_delete_absent sid (obj_delete sid (typingUsers s)) Hgone').
  by rewrite delete_delete_eq.
Qed.


(** X6. In every state the process reaches, a typing entry belongs to a
    socket that has an entry in [users]. *)
Theorem typing_entries_are_registered s sid e :
  reachable s →
  obj_get sid (typingUsers s) = Some e →
  is_Some (obj_get sid (users s)).
Proof.
  intros (_ & _ & _ & Hsub)%reachable_sessions_ok He. apply Hsub. by rewrite He.
Qed.

(** X7. In every state the process reaches, [GET /api/users] lists
    each registered socket once: no two entries share an id, and a user
    is listed exactly when it is the entry stored under its own id. *)
Theorem api_users_lists_sessions s :
  reachable s →
  NoDup (user_id <$> api_users s) ∧
  ∀ u, u ∈ api_users s ↔ obj_get (user_id u) (users s) = Some u.
Proof.
  intros (Hu & _ & Hid & _)%reachable_sessions_ok.
  assert (∀ u, u ∈ api_users s ↔ obj_get (user_id u) (users s) = Some u) as Hiff.
  { intros u. unfold api_users. rewrite obj_values_elem by done. split.
    - intros [k Hk]. by rewrite (Hid _ _ Hk).
    - eauto. }
  split; [|done].
  assert (user_id <$> api_users s = obj_keys (users s)) as ->; [|done].
  unfold api_users, obj_values, obj_keys.
  assert (∀ e, e ∈ users s → user_id e.2 = e.1) as Hall.
  { intros [k u] Hin. simpl. apply Hid. by apply obj_get_elem. }
  clear -Hall. induction (users s) as [|[k u] o IH]; simpl; [done|].
  f_equal.
  - apply (Hall (k, u)). by left.
  - apply IH. intros e He. apply Hall. by right.
Qed.

(** X8. [join_room] on a connected socket: without an entry in [users]
    nothing happens; with one, [currentRoom] becomes the new room (name
    and id kept), the socket leaves the Socket.io room of its previous
    [currentRoom] and is in the new one, it alone receives
    [room_messages] with what [messages[roomName] || []] gives (the log
    of the room; for a name that has no log the member of
    [Object.prototype] of that name, if there is one, and else the
    empty list), and the logs, the typing entries and the other
    sessions are as before. *)
Theorem join_room_moves_session s sid rs roomName :
  adapter s !! sid = Some rs →
  match obj_get sid (users s) with
  | None => join_room s sid roomName = Return s []
  | Some u =>
      ∃ s',
        let history :=
          match obj_get roomName (messages s) with
          | Some log => Own log
          | None =>
              if decide (roomName ∈ object_prototype_keys)
              then Inherited roomName else Own []
          end in
        join_room s sid roomName =
          Return s' [SocketEmit (E_room_messages history)] ∧
        obj_get sid (users s') =
          Some (User (username u) (user_id u) roomName) ∧
        (∀ k, k ≠ sid → obj_get k (users s') = obj_get k (users s)) ∧
        adapter s' !! sid = Some (rs ∖ {[ currentRoom u ]} ∪ {[ roomName ]}) ∧
        (∀ k, k ≠ sid → adapter s' !! k = adapter s !! k) ∧
        in_room s' sid roomName ∧
        (currentRoom u ≠ roomName → in_room s' sid (currentRoom u) = false) ∧
        messages s' = messages s ∧ typingUsers s' = typingUsers s ∧
        ∀ t, inbox s' sid [SocketEmit (E_room_messages history)] t =
             if decide (t = sid) then [Got (E_room_messages history)] else []
  end.
Proof.
  intros Hrs. unfold join_room.
  destruct (obj_get sid (users s)) as [u|] eqn:Hu; [|done].
  eexists. split.
  { unfold obj_read. simpl.
    destruct (obj_get roomName (messages s)); [done|]. by case_decide. }
  unfold socket_join, socket_leave. simpl.
  assert (alter (λ rs0 : gset string, rs0 ∪ {[roomName]}) sid
            (alter (λ rs0 : gset string, rs0 ∖ {[currentRoom u]}) sid
               (adapter s)) !! sid
          = Some (rs ∖ {[ currentRoom u ]} ∪ {[ roomName ]})) as Hsid.
  { by rewrite !lookup_alter_eq, Hrs. }
  split_and!.
  - apply obj_get_set_eq.
  - intros k Hk. by apply obj_get_set_ne.
  - done.
  - intros k Hk. by rewrite !lookup_alter_ne.
  - unfold in_room. simpl. rewrite Hsid. simpl.
    apply bool_decide_spec. apply elem_of_union. right.
    by apply elem_of_singleton.
  - intros Hne. unfold in_room. simpl. rewrite Hsid. simpl.
    apply bool_decide_eq_false.
    rewrite elem_of_union, elem_of_difference, !elem_of_singleton.
    intros [[_ Hnot]|Heq]; congruence.
  - done.
  - done.
  - intros t. unfold inbox. simpl. by destruct (decide (t = sid)).
Qed.

(** X9. [join_room] takes any name: in a state the process reaches a
    registered socket joins a room outside the configured three and has
    it as [currentRoom]; the history it gets is empty, or, when
    [Object.prototype] has a member of that name, that member; every
    [send_message] and [send_file] to that room then throws. *)
Theorem join_unconfigured_room_then_send s sid u r :
  reachable s →
  obj_get sid (users s) = Some u →
  r ∉ rooms → r ≠ "" →
  ∃ s1,
    join_room s sid r =
      Return s1
        [SocketEmit
           (E_room_messages
              (if decide (r ∈ object_prototype_keys)
               then Inherited r else Own []))] ∧
    currentRoom <$> obj_get sid (users s1) = Some r ∧
    (∀ env text mid cb,
       send_message s1 sid env (MessageData text (Some r) mid) cb = TypeError) ∧
    (∀ env file fileName fileType,
       send_file s1 sid env (FileData file fileName fileType (Some r))
         = TypeError).
Proof.
  intros (evs & out & Hrun) Hu Hr Hne.
  assert (obj_get r (messages s) = None) as Hnone.
  { apply eq_None_not_Some. by rewrite (reachable_rooms evs s out r Hrun). }
  unfold join_room. rewrite Hu. eexists. split_and!.
  - unfold obj_read. simpl. rewrite Hnone. by case_decide.
  - simpl. by rewrite obj_get_set_eq.
  - intros env text mid cb. unfold send_message. simpl.
    rewrite decide_False by done. by rewrite Hnone.
  - intros env file fileName fileType. unfold send_file. simpl.
    rewrite decide_False by done. by rewrite Hnone.
Qed.

(** ** Registered sockets and their current room *)

Lemma handle_in_current_room s i s' out :
  sessions_ok s → in_current_room s →
  match what i with
  | Connection => adapter s !! socket i = None
  | _ => is_Some (adapter s !! socket i)
  end →
  handle s i = Return s' out → in_current_room s'.
Proof.
  intros (Hnd & _ & _ & _) Hin Hord Hh.
  pose proof (handle_users_frame s i s' out Hh) as Hframe.
  pose proof (handle_adapter_frame s i s' out Hh) as Haframe.
  destruct i as [sid env ev]. unfold handle in Hh. simpl in *.
  unfold in_current_room in *.
  destruct ev; simpl in *;
    try (match type of Hframe with
         | _ = _ => rewrite Hframe, Haframe; exact Hin
         end).
  - (* connection *)
    injection Hh as <- <-. simpl. intros k u Hk.
    destruct (Hin k u Hk) as (rs & Hrs & Hcur).
    exists rs. split; [|done]. rewrite lookup_insert_ne; [done|congruence].
  - (* user_join *)
    injection Hh as <- <-. unfold socket_join. simpl. intros k u.
    destruct Hord as [rs0 Hrs0].
    destruct (decide (sid = k)) as [->|Hne].
    + rewrite obj_get_set_eq. intros [= <-]. simpl.
      exists (rs0 ∪ {["general"]}). rewrite lookup_alter_eq, Hrs0.
      split; [done|]. apply elem_of_union. right. by apply elem_of_singleton.
    + rewrite obj_get_set_ne, lookup_alter_ne by done. apply Hin.
  - (* join_room *)
    unfold join_room in Hh. destruct (obj_get sid (users s)) as [u0|] eqn:Hreg;
      injection Hh as <- <-; [|exact Hin].
    unfold socket_join, socket_leave. simpl. intros k u.
    destruct (Hin sid u0 Hreg) as (rs0 & Hrs0 & _).
    destruct (decide (sid = k)) as [->|Hne].
    + rewrite obj_get_set_eq. intros [= <-]. simpl.
      exists (rs0 ∖ {[currentRoom u0]} ∪ {[roomName]}).
      rewrite !lookup_alter_eq, Hrs0. split; [done|].
      apply elem_of_union. right. by apply elem_of_singleton.
    + rewrite obj_get_set_ne, !lookup_alter_ne by done. apply Hin.
  - (* disconnect *)
    injection Hh as <- <-. simpl. intros k u.
    destruct (decide (sid = k)) as [->|Hne].
    + by rewrite obj_get_delete_eq.
    + rewrite obj_get_delete_ne, lookup_delete_ne by done. apply Hin.
Qed.

Lemma run_in_current_room evs : ∀ s s' out,
  sessions_ok s → in_current_room s → orderly s evs →
  run s evs = Some (s', out) → in_current_room s'.
Proof.
  induction evs as [|i evs IH]; intros s s' out Hok Hin; simpl.
  - by intros _ [= <- <-].
  - intros [Hi Hrest].
    destruct (handle s i) as [s1 out1|] eqn:Hh; [|done].
    destruct (run s1 evs) as [[s2 out2]|] eqn:Hrun; [|done].
    intros [= <- <-]. eapply (IH s1); [| |done|done].
    + by eapply handle_sessions_ok.
    + by eapply handle_in_current_room.
Qed.

Lemma orderly_in_current_room evs s out :
  run init evs = Some (s, out) → orderly init evs → in_current_room s.
Proof.
  intros Hrun Hord.
  eapply run_in_current_room; [apply init_sessions_ok| |done|done].
  by intros k u'.
Qed.

(** X10. In an orderly run every registered socket is connected and in
    the Socket.io room named by its [currentRoom]. *)
Theorem registered_sockets_are_in_their_room evs s out sid u :
  run init evs = Some (s, out) → orderly init evs →
  obj_get sid (users s) = Some u →
  connected s sid ∧ in_room s sid (currentRoom u).
Proof.
  intros Hrun Hord Hu.
  destruct (orderly_in_current_room evs s out Hrun Hord sid u Hu)
    as (rs & Hrs & Hcur).
  unfold connected, in_room. rewrite Hrs.
  split; apply bool_decide_spec; [eauto|done].
Qed.


(** ** What the logs keep *)

(** The loop of [add_reaction] and [mark_read] keeps whatever holds of
    each message of each room and survives the body of the loop. *)
Lemma for_rooms_Forall (P : string → message → Prop) mid f ms :
  (∀ r m, P r m → P r (f m).1) →
  Forall (λ e, Forall (P e.1) e.2) ms →
  Forall (λ e, Forall (P e.1) e.2) (for_rooms mid f ms).1.
Proof.
  intros Hf. induction 1 as [|[r log] rest Hx Hrest IH]; simpl; [done|].
  destruct (findIndex mid log) as [[i m]|] eqn:Hfind.
  - destruct (f m) as [m' o] eqn:Hfm. simpl. constructor; [|done]. simpl in *.
    apply findIndex_Some in Hfind as (Hi & _ & _).
    apply Forall_insert; [done|].
    replace m' with (f m).1 by by rewrite Hfm.
    apply Hf. by eapply Forall_lookup_1.
  - destruct (for_rooms mid f rest) as [rest' o]. simpl in *. by constructor.
Qed.

Lemma push_bounded_Forall (P : message → Prop) log m :
  Forall P log → P m → Forall P (push_bounded log m).
Proof.
  intros Hlog Hm. unfold push_bounded.
  assert (Forall P (log ++ [m])) as Hall by (apply Forall_app; eauto).
  case_decide; [|done]. rewrite tail_drop. by apply Forall_drop.
Qed.

Lemma handle_rooms_of_messages s i s' out :
  Forall (λ e, Forall (λ m, room m = e.1) e.2) (messages s) →
  handle s i = Return s' out →
  Forall (λ e, Forall (λ m, room m = e.1) e.2) (messages s').
Proof.
  intros Hb.
  destruct i as [sid env ev]. unfold handle. simpl. destruct ev; simpl.
  - by intros [= <- <-].
  - by intros [= <- <-].
  - unfold send_message. destruct (obj_get _ _) as [log|] eqn:Hget; [|done].
    intros [= <- <-]. simpl. apply obj_set_Forall; [done|]. simpl.
    apply push_bounded_Forall; [|done].
    apply (obj_get_Forall (λ e, Forall (λ m, room m = e.1) e.2) _ _ _ Hb Hget).
  - unfold typing. destruct (obj_get _ _); [|by intros [= <- <-]].
    intros [= <- <-]. by destruct (data_isTyping data).
  - by intros [= <- <-].
  - unfold join_room. destruct (obj_get _ _); by intros [= <- <-].
  - unfold send_file. destruct (obj_get _ _) as [log|] eqn:Hget; [|done].
    intros [= <- <-]. simpl. apply obj_set_Forall; [done|]. simpl.
    apply push_bounded_Forall; [|done].
    apply (obj_get_Forall (λ e, Forall (λ m, room m = e.1) e.2) _ _ _ Hb Hget).
  - unfold add_reaction. destruct (obj_get _ _); [|by intros [= <- <-]].
    pose proof (for_rooms_Forall (λ r m, room m = r) messageId
                  (react messageId reaction) _ (λ r m H, H) Hb) as Hloop.
    destruct (for_rooms _ _ _) as [ms o]. by intros [= <- <-].
  - unfold mark_read. destruct (obj_get _ _) as [u|]; [|by intros [= <- <-]].
    assert (∀ r m, room m = r → room (read messageId (username u) m).1 = r)
      as Hread.
    { intros r m <-. unfold read. by case_decide. }
    pose proof (for_rooms_Forall (λ r m, room m = r) messageId
                  (read messageId (username u)) _ Hread Hb) as Hloop.
    destruct (for_rooms _ _ _) as [ms o]. by intros [= <- <-].
  - unfold load_messages. destruct (or_empty _); [|done..].
    destruct callback; [|done]. by intros [= <- <-].
  - by intros [= <- <-].
Qed.

(** X12. In every state the process reaches, each message of a log
    carries the name of the room of that log in [room], and the room is
    one of the configured three. *)
Theorem logs_hold_their_room evs s out r log m :
  run init evs = Some (s, out) →
  obj_get r (messages s) = Some log → m ∈ log →
  room m = r ∧ r ∈ rooms.
Proof.
  intros Hrun Hget Hm. split.
  - assert (Forall (λ e, Forall (λ m, room m = e.1) e.2) (messages s)) as Hall.
    { clear Hget Hm. revert s out Hrun.
      assert (Forall (λ e : string * list message,
                Forall (λ m, room m = e.1) e.2) (messages init)) as Hinit
        by (simpl; repeat constructor).
      revert Hinit. generalize init.
      induction evs as [|i evs IH]; intros s0 H0 s out; simpl.
      - by intros [= <- <-].
      - destruct (handle s0 i) as [s1 out1|] eqn:Hh; [|done].
        destruct (run s1 evs) as [[s2 out2]|] eqn:Hrun; [|done].
        intros [= <- <-]. eapply IH; [|done].
        by eapply handle_rooms_of_messages. }
    pose proof (obj_get_Forall _ _ _ _ Hall Hget) as Hlog. simpl in Hlog.
    by eapply Forall_forall in Hlog.
  - apply (reachable_rooms evs s out r Hrun). by rewrite Hget.
Qed.

(** ** Order of the ids in a log *)

Lemma StronglySorted_snoc_le (l : list Z) (x : Z) :
  StronglySorted Z.le l → Forall (λ y, (y ≤ x)%Z) l →
  StronglySorted Z.le (l ++ [x]).
Proof.
  intros Hs Hb. induction Hs as [|y l Hs IH Hy]; simpl.
  - repeat constructor.
  - apply Forall_cons in Hb as [Hyx Hb]. constructor; [by apply IH|].
    apply Forall_app. split; [done|]. by constructor.
Qed.

Lemma StronglySorted_tail (l : list Z) :
  StronglySorted Z.le l → StronglySorted Z.le (tail l).
Proof. intros Hs. destruct Hs; [constructor|done]. Qed.

(** A log whose ids are in order and at most [t], after a message with
    an id [c] from [t] on is pushed. *)
Lemma push_bounded_sorted log m (t : Z) :
  StronglySorted Z.le (id <$> log) →
  Forall (λ x, (x ≤ t)%Z) (id <$> log) →
  (t ≤ id m)%Z →
  StronglySorted Z.le (id <$> push_bounded log m) ∧
  Forall (λ x, (x ≤ id m)%Z) (id <$> push_bounded log m).
Proof.
  intros Hs Hb Ht.
  assert (Forall (λ x, (x ≤ id m)%Z) (id <$> log)) as Hb'.
  { eapply Forall_impl; [done|]. simpl. intros; lia. }
  assert (StronglySorted Z.le (id <$> log ++ [m]) ∧
          Forall (λ x, (x ≤ id m)%Z) (id <$> log ++ [m])) as [Hs1 Hb1].
  { rewrite fmap_app. simpl. split.
    - by apply StronglySorted_snoc_le.
    - apply Forall_app. split; [done|]. by repeat constructor. }
  unfold push_bounded. case_decide; [|done].
  destruct (log ++ [m]) as [|m0 l0]; [done|]. simpl in *. split.
  - by apply StronglySorted_inv in Hs1 as [? _].
  - by apply Forall_cons in Hb1 as [_ ?].
Qed.

(** The loop of [add_reaction] and [mark_read] keeps the ids of every
    log, in place. *)
Lemma for_rooms_ids mid f ms :
  (∀ m, id (f m).1 = id m) →
  (λ e : string * list message, (e.1, id <$> e.2)) <$> (for_rooms mid f ms).1
  = (λ e, (e.1, id <$> e.2)) <$> ms.
Proof.
  intros Hf. induction ms as [|[r log] rest IH]; simpl; [done|].
  destruct (findIndex mid log) as [[i m]|] eqn:Hfind.
  - destruct (f m) as [m' o] eqn:Hfm. simpl. f_equal. f_equal.
    apply findIndex_Some in Hfind as (Hi & _ & _).
    rewrite list_fmap_insert. apply list_insert_id.
    rewrite list_lookup_fmap, Hi. simpl. f_equal.
    replace m' with (f m).1 by by rewrite Hfm. symmetry. apply Hf.
  - destruct (for_rooms mid f rest) as [rest' o]. simpl in *. by f_equal.
Qed.


Lemma ids_in_order_mono t t' ms :
  (t ≤ t')%Z → ids_in_order t ms → ids_in_order t' ms.
Proof.
  intros Hle. unfold ids_in_order. intros Hall.
  eapply Forall_impl; [exact Hall|].
  intros e [Hs Hb]. split; [done|]. eapply Forall_impl; [done|].
  simpl. intros; lia.
Qed.

Lemma ids_in_order_get t ms r log :
  ids_in_order t ms → obj_get r ms = Some log →
  StronglySorted Z.le (id <$> log) ∧ Forall (λ x, (x ≤ t)%Z) (id <$> log).
Proof.
  unfold ids_in_order. rewrite Forall_fmap.
  intros Hall Hget. apply (obj_get_Forall _ _ _ _ Hall Hget).
Qed.

Lemma ids_in_order_set t c ms r log m :
  ids_in_order t ms → obj_get r ms = Some log →
  (t ≤ c)%Z → id m = c →
  ids_in_order c (obj_set r (push_bounded log m) ms).
Proof.
  intros Hall Hget Hle Hid.
  destruct (ids_in_order_get t ms r log Hall Hget) as [Hs Hb].
  apply (ids_in_order_mono t c) in Hall; [|done].
  unfold ids_in_order in *. rewrite Forall_fmap in *.
  apply obj_set_Forall; [done|]. simpl. rewrite <-Hid.
  apply (push_bounded_sorted log m t); [done..|lia].
Qed.

(** A handler whose clock reads [c], from [t] on, keeps the ids of every
    log in order, now at most [c]. *)
Lemma handle_ids_in_order t s i s' out :
  ids_in_order t (messages s) → (t ≤ now (at_time i))%Z →
  handle s i = Return s' out →
  ids_in_order (now (at_time i)) (messages s').
Proof.
  intros Hb Hle.
  pose proof (ids_in_order_mono t (now (at_time i)) _ Hle Hb) as Hb'.
  destruct i as [sid env ev]. unfold handle. simpl in *. destruct ev; simpl.
  - by intros [= <- <-].
  - by intros [= <- <-].
  - unfold send_message. destruct (obj_get _ _) as [log|] eqn:Hget; [|done].
    intros [= <- <-]. simpl. by eapply ids_in_order_set.
  - unfold typing. destruct (obj_get _ _); [|by intros [= <- <-]].
    intros [= <- <-]. by destruct (data_isTyping data).
  - by intros [= <- <-].
  - unfold join_room. destruct (obj_get _ _); by intros [= <- <-].
  - unfold send_file. destruct (obj_get _ _) as [log|] eqn:Hget; [|done].
    intros [= <- <-]. simpl. by eapply ids_in_order_set.
  - unfold add_reaction. destruct (obj_get _ _); [|by intros [= <- <-]].
    pose proof (for_rooms_ids messageId (react messageId reaction)
                  (messages s) (λ m, eq_refl)) as Hids.
    destruct (for_rooms _ _ _) as [ms o]. intros [= <- <-]. simpl in *.
    unfold ids_in_order. by rewrite Hids.
  - unfold mark_read. destruct (obj_get _ _) as [u|]; [|by intros [= <- <-]].
    assert (∀ m, id (read messageId (username u) m).1 = id m) as Hread.
    { intros m. unfold read. by case_decide. }
    pose proof (for_rooms_ids messageId (read messageId (username u))
                  (messages s) Hread) as Hids.
    destruct (for_rooms _ _ _) as [ms o]. intros [= <- <-]. simpl in *.
    unfold ids_in_order. by rewrite Hids.
  - unfold load_messages. destruct (or_empty _); [|done..].
    destruct callback; [|done]. by intros [= <- <-].
  - by intros [= <- <-].
Qed.

Lemma run_ids_in_order evs : ∀ t s s' out,
  ids_in_order t (messages s) →
  StronglySorted Z.le (t :: ((λ i, now (at_time i)) <$> evs)) →
  run s evs = Some (s', out) →
  ∃ t', ids_in_order t' (messages s').
Proof.
  induction evs as [|i evs IH]; intros t s s' out Hb Hs; simpl.
  - intros [= <- <-]. eauto.
  - destruct (handle s i) as [s1 out1|] eqn:Hh; [|done].
    destruct (run s1 evs) as [[s2 out2]|] eqn:Hrun; [|done].
    intros [= <- <-]. simpl in Hs.
    apply StronglySorted_inv in Hs as [Hs Ht].
    apply Forall_cons in Ht as [Hle _].
    eapply (IH (now (at_time i)) s1); [|done|done].
    by eapply handle_ids_in_order.
Qed.

(** X13. When [Date.now()] never goes back from one event to the next,
    the ids of every log are in ascending order (equal ids side by
    side): the order of a log is the order of its ids. *)
Theorem logs_sorted_by_id evs s out r log :
  run init evs = Some (s, out) →
  StronglySorted Z.le ((λ i, now (at_time i)) <$> evs) →
  obj_get r (messages s) = Some log →
  StronglySorted Z.le (id <$> log).
Proof.
  intros Hrun Hs Hget.
  destruct evs as [|i evs].
  - injection Hrun as <- <-. simpl in Hget.
    repeat case_decide; simplify_eq; constructor.
  - destruct (run_ids_in_order (i :: evs) (now (at_time i)) init s out)
      as [t' Hb]; [| |done|].
    + unfold ids_in_order. simpl. repeat constructor.
    + constructor; [done|]. simpl. constructor; [lia|].
      simpl in Hs. by apply StronglySorted_inv in Hs as [_ ?].
    + by destruct (ids_in_order_get t' _ r log Hb Hget).
Qed.

(** ** Pages *)

(** X14. [load_messages] with a limit [L >= 0] and an offset [F] within
    the log of [n] messages: the page has [min L (n - F)] messages, it is
    the stretch of the log that ends [F] messages before the tail (the
    page followed by the last [F] messages is a suffix of the log), and
    [hasMore] tells whether [L + F < n]. *)
Theorem load_messages_page s r log (L F : Z) :
  obj_get r (messages s) = Some log →
  (0 ≤ L)%Z → (0 ≤ F ≤ Z.of_nat (length log))%Z →
  ∃ page,
    load_messages s r (Some L) (Some F) true =
      Return s [Callback (Ack_loaded true page
                            (bool_decide (L + F < Z.of_nat (length log))%Z))] ∧
    Z.of_nat (length page) = Z.min L (Z.of_nat (length log) - F) ∧
    page ++ last_n (Z.to_nat F) log = last_n (length page + Z.to_nat F) log.
Proof.
  intros Hget HL HF.
  rewrite (load_messages_window s r log L F Hget HL HF).
  set (n := Z.of_nat (length log)). set (start := Z.max 0 (n - L - F)).
  eexists. split; [|split].
  - do 4 f_equal. apply bool_decide_ext. lia.
  - rewrite length_take, length_drop. lia.
  - rewrite length_take, length_drop. unfold last_n.
    replace (length log - Z.to_nat F) with
      (Z.to_nat start + Z.to_nat (n - F - start)) by lia.
    rewrite <-drop_drop, take_drop. f_equal. lia.
Qed.

(** X15. Two pages asked for one after the other, the second with the
    offset moved on by the limit, make up the page of twice the limit,
    and the second tells whether anything older is left. *)
Theorem load_messages_pages_adjacent s r log (L F : Z) :
  obj_get r (messages s) = Some log →
  (0 ≤ L)%Z → (0 ≤ F)%Z → (F + L ≤ Z.of_nat (length log))%Z →
  ∃ newer older more1 more2,
    load_messages s r (Some L) (Some F) true =
      Return s [Callback (Ack_loaded true newer more1)] ∧
    load_messages s r (Some L) (Some (F + L)%Z) true =
      Return s [Callback (Ack_loaded true older more2)] ∧
    load_messages s r (Some (2 * L)%Z) (Some F) true =
      Return s [Callback (Ack_loaded true (older ++ newer) more2)].
Proof.
  intros Hget HL HF HFL.
  rewrite !(load_messages_window s r log) by (done || lia).
  set (n := Z.of_nat (length log)) in *.
  eexists _, _, _, _. split; [reflexivity|]. split; [reflexivity|].
  do 3 f_equal. f_equal.
  - replace (Z.max 0 (n - L - F)) with (n - L - F)%Z by lia.
    replace (Z.max 0 (n - L - (F + L))) with (Z.max 0 (n - 2 * L - F)) by lia.
    set (start := Z.max 0 (n - 2 * L - F)).
    replace (Z.to_nat (n - L - F)) with
      (Z.to_nat start + Z.to_nat (n - (F + L) - start)) by lia.
    rewrite <-drop_drop, take_take_drop. f_equal. lia.
  - apply bool_decide_ext. lia.
Qed.

(** X16. In every state the process reaches, the history of a room
    outside the configured three, under a name that [Object.prototype]
    does not define, reads as empty, without an error: [load_messages]
    answers with no messages and [hasMore] off, and
    [GET /api/messages/:room] with the empty list.  Under a name that
    [Object.prototype] defines, [messages[room] || []] is the inherited
    member: [load_messages] throws and the route answers with that
    member. *)
Theorem unconfigured_room_reads_empty evs s out r (L F : Z) :
  run init evs = Some (s, out) →
  r ∉ rooms → r ≠ "" → (0 ≤ L)%Z → (0 ≤ F)%Z →
  if decide (r ∈ object_prototype_keys)
  then load_messages s r (Some L) (Some F) true = TypeError ∧
       api_messages s r = Inherited r
  else load_messages s r (Some L) (Some F) true =
         Return s [Callback (Ack_loaded true [] false)] ∧
       api_messages s r = Own [].
Proof.
  intros Hrun Hr Hne HL HF.
  assert (obj_get r (messages s) = None) as Hnone.
  { apply eq_None_not_Some. by rewrite (reachable_rooms evs s out r Hrun). }
  assert (api_messages s r = or_empty (obj_read r (messages s))) as ->.
  { unfold api_messages. simpl. by rewrite decide_False. }
  unfold obj_read. rewrite Hnone. case_decide as Hk; simpl.
  - split; [by apply load_from_inherited_name|done].
  - split; [by apply load_from_unknown_room|done].
Qed.

(** ** Acknowledgments *)

Lemma handle_acks s i s' out :
  handle s i = Return s' out →
  Forall (λ e, match e with
               | Callback a => ack_success a = true
               | _ => True
               end) out.
Proof.
  destruct i as [sid env ev]. unfold handle. simpl. destruct ev; simpl.
  - intros [= <- <-]. constructor.
  - intros [= <- <-]. by repeat constructor.
  - unfold send_message. destruct (obj_get _ _); [|done]. intros [= <- <-].
    destruct callback; by repeat constructor.
  - unfold typing. destruct (obj_get _ _); intros [= <- <-];
      by repeat constructor.
  - unfold private_message. intros [= <- <-].
    destruct callback; by repeat constructor.
  - unfold join_room. destruct (obj_get _ _); intros [= <- <-];
      by repeat constructor.
  - unfold send_file. destruct (obj_get _ _); [|done]. intros [= <- <-].
    by repeat constructor.
  - unfold add_reaction. destruct (obj_get _ _);
      [|intros [= <- <-]; constructor].
    destruct (locate messageId (messages s)) as [[[p j] m]|] eqn:Hloc.
    + destruct (for_rooms_found messageId (react messageId reaction) _ _ _ _ Hloc)
        as (r & log & _ & ->).
      intros [= <- <-]. by repeat constructor.
    + rewrite for_rooms_absent by done. intros [= <- <-]. constructor.
  - unfold mark_read. destruct (obj_get _ _) as [u|];
      [|intros [= <- <-]; constructor].
    destruct (locate messageId (messages s)) as [[[p j] m]|] eqn:Hloc.
    + destruct (for_rooms_found messageId (read messageId (username u)) _ _ _ _ Hloc)
        as (r & log & _ & ->).
      intros [= <- <-]. unfold read. case_decide; by repeat constructor.
    + rewrite for_rooms_absent by done. intros [= <- <-]. constructor.
  - unfold load_messages. destruct (or_empty _); [|done..].
    destruct callback; [|done]. intros [= <- <-].
    by repeat constructor.
  - unfold disconnect. intros [= <- <-]. simpl.
    destruct (obj_get _ _); by repeat constructor.
Qed.

(** X17. In no run does the server call an acknowledgment callback with
    [success] other than [true]. *)
Theorem acks_report_success evs s s' out a :
  run s evs = Some (s', out) → Callback a ∈ out → ack_success a = true.
Proof.
  intros Hrun Hin.
  assert (Forall (λ e, match e with
                       | Callback a => ack_success a = true
                       | _ => True
                       end) out) as Hall.
  { clear Hin. revert s s' out Hrun.
    induction evs as [|i evs IH]; intros s s' out; simpl.
    - intros [= <- <-]. constructor.
    - destruct (handle s i) as [s1 out1|] eqn:Hh; [|done].
      destruct (run s1 evs) as [[s2 out2]|] eqn:Hrun; [|done].
      intros [= <- <-]. apply Forall_app. split; [by eapply handle_acks|eauto]. }
  by apply (proj1 (Forall_forall _ _) Hall (Callback a)).
Qed.

(** ** The client and the server together *)

(** An updater that maps over the list and rewrites the entries picked
    by a test leaves a list with no such entry as it is. *)
Lemma fmap_unless {A} (P : A → Prop) `{∀ x, Decision (P x)} (g : A → A) l :
  Forall (λ x, ¬ P x) l →
  (λ x, if decide (P x) then g x else x) <$> l = l.
Proof.
  induction 1 as [|x l Hx _ IH]; [done|].
  by rewrite fmap_cons, decide_False, IH.
Qed.

(** X18. The client's [loadMoreMessages] sends the room and the limit
    20 and no offset, so the server answers with the newest page (the
    last 20 messages of the log) every time; the callback puts that page
    before the list, a second call puts it there a second time, and
    [hasMoreMessages] becomes whether the log has at least 20 messages,
    after which nothing more is sent when it has fewer. *)
Theorem load_more_repeats_newest_page s sid env r log prev :
  obj_get r (messages s) = Some log →
  ∃ ev more,
    let page := last_n 20 log in
    loadMoreMessages false true r = Some ev ∧
    handle s (Input sid env ev) =
      Return s [Callback (Ack_loaded true page more)] ∧
    loadMoreMessages_response true page prev true =
      ((view_of <$> page) ++ prev, bool_decide (20 ≤ length log)) ∧
    loadMoreMessages_response true page ((view_of <$> page) ++ prev) true =
      ((view_of <$> page) ++ (view_of <$> page) ++ prev,
       bool_decide (20 ≤ length log)) ∧
    (length log < 20 →
     loadMoreMessages false (bool_decide (20 ≤ length log)) r = None).
Proof.
  intros Hget. eexists _, _. split; [reflexivity|].
  assert (length (last_n 20 log) = 20 ↔ 20 ≤ length log) as Hlen.
  { rewrite length_last_n. lia. }
  split_and!.
  - unfold handle. simpl. unfold load_messages, obj_read. rewrite Hget. cbn [or_empty].
    cbn [from_option Datatypes.id]. do 4 f_equal.
    set (n := Z.of_nat (length log)).
    rewrite slice_within by lia. unfold last_n.
    rewrite take_ge by (rewrite length_drop; lia). f_equal. lia.
  - unfold loadMoreMessages_response. f_equal. by apply bool_decide_ext.
  - unfold loadMoreMessages_response. f_equal. by apply bool_decide_ext.
  - intros Hfew. unfold loadMoreMessages.
    by rewrite bool_decide_eq_false_2 by lia.
Qed.

(** X19. A message sent by the client's [sendMessage] and acknowledged:
    the server stores it with the client's temporary id kept in
    [messageId], and the acknowledgment rewrites the optimistic copy to
    the id under which the server stored and broadcast the message, with
    status [delivered]; local messages with other ids are unchanged. *)
Theorem send_round_trip s sid env (tempId : Z) text stamp r log prev :
  obj_get r (messages s) = Some log → r ≠ "" →
  ∃ s' m,
    handle s (Input sid env (sendMessage_request tempId text r)) =
      Return s' [Callback (Ack_sent true (id m));
                 SocketTo r (E_receive_message m)] ∧
    obj_get r (messages s') = Some (push_bounded log m) ∧
    body m = Text text (Some tempId) ∧
    sendMessage_ack tempId true (id m)
        (sendMessage_local tempId text sid stamp r prev) =
      sendMessage_ack tempId true (id m) prev ++
      [View (id m) (Pending text sid stamp r) (Some "delivered") None None] ∧
    (Forall (λ v, view_id v ≠ tempId) prev →
     sendMessage_ack tempId true (id m) prev = prev).
Proof.
  intros Hget Hr. unfold handle, sendMessage_request. simpl.
  unfold send_message. simpl. rewrite decide_False by done. rewrite Hget.
  eexists _, (new_message s sid env (MessageData text (Some r) (Some tempId))).
  split; [reflexivity|]. split_and!.
  - simpl. apply obj_get_set_eq.
  - done.
  - unfold sendMessage_ack, sendMessage_local. rewrite fmap_app. simpl.
    by rewrite decide_True.
  - intros Hall. unfold sendMessage_ack. simpl. by apply fmap_unless.
Qed.

(** X20. One reaction on both sides: the server broadcasts the count it
    holds after the reaction; the client's [onReactionAdded] does not
    read that count but raises its own entry for the symbol on the
    message with the id, leaving the entries of other symbols, the other
    fields and the other messages as they are.  Under a symbol that
    [Object.prototype] does not define the server's count goes up by
    one and is the number broadcast, and so does the client's unless it
    holds a text there (which no ordinary symbol gets: a number, [null]
    or no entry is raised to a number).  Under a symbol that
    [Object.prototype] defines, a client copy whose [reactions] has no
    entry of its own for it ends with a text: [(f || 0) + 1] appends to
    the text of the inherited member. *)
Theorem reaction_moves_both_counts mid reaction m v prev1 prev2 :
  view_id v = mid →
  Forall (λ w, view_id w ≠ mid) (prev1 ++ prev2) →
  ∃ m' c v',
    react mid reaction m = (m', [IoEmit (E_reaction_added mid reaction c)]) ∧
    onReactionAdded mid reaction c (prev1 ++ v :: prev2) =
      prev1 ++ v' :: prev2 ∧
    (∀ other, other ≠ reaction →
       default ∅ (view_reactions v') !! other =
         default ∅ (view_reactions v) !! other) ∧
    view_id v' = view_id v ∧ view_origin v' = view_origin v ∧
    view_status v' = view_status v ∧ view_readBy v' = view_readBy v ∧
    (reaction ∉ object_prototype_keys →
     c = Own (Num (count_of reaction m + 1)) ∧
     count_of reaction m' = (count_of reaction m + 1)%Z ∧
     (default ∅ (view_reactions v) !! reaction ≠ Some HText →
      view_count reaction v' = (view_count reaction v + 1)%Z)) ∧
    (reaction ∈ object_prototype_keys →
     ∀ r, view_reactions v = Some r → r !! reaction = None →
          default ∅ (view_reactions v') !! reaction = Some HText).
Proof.
  intros Hid Hall.
  assert (∀ c l, Forall (λ w, view_id w ≠ mid) l →
                 onReactionAdded mid reaction c l = l) as Hsame.
  { intros c l Hl. unfold onReactionAdded. by apply fmap_unless. }
  apply Forall_app in Hall as [H1 H2].
  eexists (react mid reaction m).1, _, _. split_and!.
  - unfold react. simpl. reflexivity.
  - unfold onReactionAdded in *. rewrite fmap_app, fmap_cons.
    rewrite (Hsame Undefined prev1 H1), (Hsame Undefined prev2 H2).
    rewrite decide_True by done.
    reflexivity.
  - intros other Hother. simpl. by rewrite lookup_insert_ne.
  - done.
  - done.
  - done.
  - done.
  - intros Hk. destruct (react_spec mid reaction m Hk) as (Hout & Hcount).
    split_and!.
    + unfold react in Hout |- *. simpl in Hout. by injection Hout.
    + exact Hcount.
    + intros Htext. unfold view_count, view_read. simpl.
      rewrite lookup_insert_eq.
      destruct (view_reactions v) as [r|]; simpl in *.
      * destruct (r !! reaction) as [[z| |]|]; simpl; [done..| |].
        -- done.
        -- by rewrite decide_False.
      * done.
  - intros Hk r Hr Hnone. unfold view_read. simpl.
    by rewrite lookup_insert_eq, Hr, Hnone, decide_True.
Qed.

(** X21. One read receipt on both sides, for a client copy that lists
    the same readers as the server's message: when the user is already a
    reader the server changes and emits nothing; otherwise the server
    appends the user and emits [message_read], and the client's
    [onMessageRead] appends the same user, so both list the same readers
    again. *)
Theorem receipt_keeps_readers_in_step mid name m v :
  view_id v = mid →
  default [] (view_readBy v) = default [] (readBy m) →
  let readers := default [] (readBy m) in
  (name ∈ readers → read mid name m = (m, [])) ∧
  (name ∉ readers →
   ∃ m' v',
     read mid name m = (m', [IoEmit (E_message_read mid name)]) ∧
     onMessageRead mid name [v] = [v'] ∧
     readBy m' = Some (readers ++ [name]) ∧
     view_readBy v' = Some (readers ++ [name]) ∧
     view_id v' = view_id v ∧ view_origin v' = view_origin v ∧
     view_status v' = view_status v ∧ view_reactions v' = view_reactions v).
Proof.
  intros Hid Hsame readers.
  destruct (read_spec mid name m) as (Hfirst & Hagain & _).
  split; [done|]. intros Hnot. rewrite (Hfirst Hnot).
  eexists _, _. split; [reflexivity|]. unfold onMessageRead. simpl.
  rewrite decide_True by done. split; [reflexivity|]. simpl.
  rewrite Hsame. by split_and!.
Qed.

(** ** Reactions under ordinary symbols *)

(** X22. Under a symbol that [Object.prototype] does not define, while
    a message carries the id, successive [add_reaction] events for it
    and the symbol, from registered sockets, broadcast the counts
    [c + 1, c + 2, ..., c + k], where [c] is the number the message
    holds for the symbol (0 when it holds none or [NaN], so the counts
    are then [1 .. k]), and leave the message with the last count; when
    no room log holds the id, such events change nothing and broadcast
    nothing, whatever the symbol. *)
Theorem add_reaction_ordinary_counts s mid reaction evs :
  Forall (reacts mid reaction s) evs →
  (reaction ∉ object_prototype_keys →
   present mid (messages s) →
   ∃ p i m s' m',
     locate mid (messages s) = Some (p, i, m) ∧
     run s evs =
       Some (s', (λ c, IoEmit (E_reaction_added mid reaction (Own (Num c)))) <$>
                   seqZ (count_of reaction m + 1) (Z.of_nat (length evs))) ∧
     locate mid (messages s') = Some (p, i, m') ∧
     count_of reaction m' = (count_of reaction m + Z.of_nat (length evs))%Z) ∧
  (¬ present mid (messages s) → run s evs = Some (s, [])).
Proof.
  intros Hall. split.
  - intros Hk (p & i & m & Hloc)%locate_present.
    destruct (run_reactions mid reaction evs s p i m Hk Hloc Hall)
      as (s' & m' & Hrun & _ & Hloc' & Hcount).
    by exists p, i, m, s', m'.
  - intros Hloc%locate_None. induction Hall as [|j evs [Hwhat _] _ IH]; [done|].
    cbn [run]. unfold handle. rewrite Hwhat.
    destruct (handler_not_found s (socket j) mid reaction Hloc) as [-> _].
    by rewrite IH.
Qed.

(** ** The further theorems at sample inputs *)

Lemma run_two_users : ∃ out, run init two_users = Some (online, out).
Proof. eexists. vm_compute. reflexivity. Qed.

Lemma run_talking : ∃ out, run init talking_run = Some (talking, out).
Proof. eexists. vm_compute. reflexivity. Qed.

Lemma run_composing : ∃ out, run init composing_run = Some (composing, out).
Proof. eexists. vm_compute. reflexivity. Qed.

Lemma online_reachable : reachable online.
Proof. destruct run_two_users as [out Hrun]. by exists two_users, out. Qed.

Lemma composing_reachable : reachable composing.
Proof. destruct run_composing as [out Hrun]. by exists composing_run, out. Qed.

Lemma lobby_unconfigured : "lobby" ∉ rooms.
Proof.
  unfold rooms. intros H.
  repeat (apply elem_of_cons in H as [H|H]; [discriminate H|]).
  by apply elem_of_nil in H.
Qed.

Lemma lobby_ordinary : "lobby" ∉ object_prototype_keys.
Proof.
  unfold object_prototype_keys. intros H.
  repeat (apply elem_of_cons in H as [H|H]; [discriminate H|]).
  by apply elem_of_nil in H.
Qed.

Lemma thumbsup_ordinary : "thumbsup" ∉ object_prototype_keys.
Proof.
  unfold object_prototype_keys. intros H.
  repeat (apply elem_of_cons in H as [H|H]; [discriminate H|]).
  by apply elem_of_nil in H.
Qed.

Lemma orderly_two_users : orderly init two_users.
Proof.
  repeat (split; [first [by vm_compute | eexists; vm_compute; reflexivity]|]).
  done.
Qed.

Lemma user_join_registers_witness :
  ∃ s', obj_get "sA" (users s') = Some (User "alice" "sA" "general") ∧
        user_join online "sA" "alice" =
          Return s' [IoEmit (E_user_list (api_users s'));
                     IoEmit (E_user_joined "alice" "sA")].
Proof.
  destruct (user_join_registers online "sA" "alice") as (s' & Hret & Hget & _).
  - eexists. vm_compute. reflexivity.
  - exists s'. split; [exact Hget|exact Hret].
Defined.

Lemma typing_start_stop_round_trip_witness :
  ∃ s1 out1 out2,
    typing online "sA" (TypingData true None) = Return s1 out1 ∧
    typing s1 "sA" (TypingData false None) = Return online out2.
Proof.
  destruct (typing_start_stop_round_trip online "sA"
              (User "alice" "sA" "general") None)
    as (s1 & out1 & s2 & out2 & H1 & _ & H2 & Hback).
  - vm_compute. reflexivity.
  - vm_compute. reflexivity.
  - exists s1, out1, out2. split; [exact H1|]. rewrite Hback in H2. exact H2.
Defined.

Lemma disconnect_removes_session_witness :
  ∃ s', obj_get "sA" (users s') = None ∧ connected s' "sA" = false.
Proof.
  destruct (disconnect_removes_session online "sA" online_reachable)
    as (s' & _ & Hgone & _ & _ & Hconn & _).
  exists s'. split; [exact Hgone|exact Hconn].
Defined.

Lemma disconnect_idempotent_witness :
  ∃ s1 out1,
    disconnect online "sA" = Return s1 out1 ∧
    disconnect s1 "sA" =
      Return s1
        [IoEmit (E_user_list (api_users s1));
         IoEmit (E_typing_users (roomTypingUsers s1 "general") "general")].
Proof. exact (disconnect_idempotent online "sA" online_reachable). Defined.


Lemma typing_entries_are_registered_witness :
  is_Some (obj_get "sA" (users composing)).
Proof.
  apply (typing_entries_are_registered composing "sA"
           (TypingUser "alice" "general") composing_reachable).
  vm_compute. reflexivity.
Defined.

Lemma api_users_lists_sessions_witness : NoDup (user_id <$> api_users online).
Proof. exact (proj1 (api_users_lists_sessions online online_reachable)). Defined.

Lemma join_room_moves_session_witness :
  ∃ s', join_room online "sA" "random" =
          Return s' [SocketEmit (E_room_messages (Own []))] ∧
        obj_get "sA" (users s') = Some (User "alice" "sA" "random") ∧
        in_room s' "sA" "random" ∧ in_room s' "sA" "general" = false.
Proof.
  destruct (adapter online !! "sA") as [rs|] eqn:Hrs;
    [|vm_compute in Hrs; discriminate Hrs].
  pose proof (join_room_moves_session online "sA" rs "random" Hrs) as Hjoin.
  assert (obj_get "sA" (users online) = Some (User "alice" "sA" "general"))
    as Hu by (vm_compute; reflexivity).
  rewrite Hu in Hjoin.
  destruct Hjoin as (s' & Hemit & Hget & _ & _ & _ & Hin & Hout & _).
  exists s'. split; [exact Hemit|]. split; [exact Hget|]. split; [exact Hin|].
  apply Hout. discriminate.
Defined.

Lemma join_unconfigured_room_then_send_witness :
  ∃ s1,
    join_room online "sA" "lobby" =
      Return s1 [SocketEmit (E_room_messages (Own []))] ∧
    send_message s1 "sA" (at_ms 9) (MessageData "hi" (Some "lobby") None) true
      = TypeError.
Proof.
  destruct (join_unconfigured_room_then_send online "sA"
              (User "alice" "sA" "general") "lobby" online_reachable)
    as (s1 & Hjoin & _ & Hsend & _).
  - vm_compute. reflexivity.
  - exact lobby_unconfigured.
  - discriminate.
  - rewrite decide_False in Hjoin by exact lobby_ordinary.
    exists s1. split; [exact Hjoin|apply Hsend].
Defined.

Lemma registered_sockets_are_in_their_room_witness :
  connected online "sB" ∧ in_room online "sB" "general".
Proof.
  destruct run_two_users as [out Hrun].
  apply (registered_sockets_are_in_their_room two_users online out "sB"
           (User "bob" "sB" "general") Hrun orderly_two_users).
  vm_compute. reflexivity.
Defined.


Lemma logs_hold_their_room_witness :
  room hello = "general" ∧ "general" ∈ rooms.
Proof.
  destruct run_talking as [out Hrun].
  apply (logs_hold_their_room talking_run talking out "general" [hello] hello
           Hrun).
  - vm_compute. reflexivity.
  - left.
Defined.

Lemma logs_sorted_by_id_witness :
  ∃ s out log,
    run init (burst 3) = Some (s, out) ∧
    obj_get "general" (messages s) = Some log ∧
    StronglySorted Z.le (id <$> log).
Proof.
  destruct (run init (burst 3)) as [[s out]|] eqn:Hrun;
    [|vm_compute in Hrun; discriminate Hrun].
  destruct (obj_get "general" (messages s)) as [log|] eqn:Hget.
  - exists s, out, log. split; [reflexivity|]. split; [exact Hget|].
    apply (logs_sorted_by_id (burst 3) s out "general" log Hrun); [|exact Hget].
    simpl. repeat constructor; lia.
  - vm_compute in Hrun. injection Hrun as <- <-. vm_compute in Hget.
    discriminate Hget.
Defined.

Lemma load_messages_page_witness :
  ∃ page,
    load_messages talking "general" (Some 20%Z) (Some 0%Z) true =
      Return talking [Callback (Ack_loaded true page false)] ∧
    Z.of_nat (length page) = 1%Z.
Proof.
  destruct (obj_get "general" (messages talking)) as [log|] eqn:Hget;
    [|vm_compute in Hget; discriminate Hget].
  assert (length log = 1) as Hlen.
  { vm_compute in Hget. by injection Hget as <-. }
  destruct (load_messages_page talking "general" log 20 0 Hget)
    as (page & Hload & Hsize & _); [lia..|].
  exists page. rewrite Hlen in Hload, Hsize. split; [exact Hload|exact Hsize].
Defined.

Lemma load_messages_pages_adjacent_witness :
  ∃ newer older more1 more2,
    load_messages talking "general" (Some 1%Z) (Some 0%Z) true =
      Return talking [Callback (Ack_loaded true newer more1)] ∧
    load_messages talking "general" (Some 1%Z) (Some 1%Z) true =
      Return talking [Callback (Ack_loaded true older more2)] ∧
    load_messages talking "general" (Some 2%Z) (Some 0%Z) true =
      Return talking [Callback (Ack_loaded true (older ++ newer) more2)].
Proof.
  destruct (obj_get "general" (messages talking)) as [log|] eqn:Hget;
    [|vm_compute in Hget; discriminate Hget].
  assert (length log = 1) as Hlen.
  { vm_compute in Hget. by injection Hget as <-. }
  apply (load_messages_pages_adjacent talking "general" log 1 0 Hget);
    rewrite ?Hlen; lia.
Defined.

Lemma unconfigured_room_reads_empty_witness :
  load_messages online "lobby" (Some 20%Z) (Some 0%Z) true =
    Return online [Callback (Ack_loaded true [] false)] ∧
  api_messages online "lobby" = Own [].
Proof.
  destruct run_two_users as [out Hrun].
  pose proof (unconfigured_room_reads_empty two_users online out "lobby" 20 0
                Hrun lobby_unconfigured) as Hreads.
  rewrite decide_False in Hreads by exact lobby_ordinary.
  apply Hreads.
  - discriminate.
  - lia.
  - lia.
Defined.

Lemma acks_report_success_witness :
  ∃ s out,
    run init talking_run = Some (s, out) ∧
    out !! 4 = Some (Callback (Ack_sent true 5)) ∧
    ack_success (Ack_sent true 5) = true.
Proof.
  destruct (run init talking_run) as [[s out]|] eqn:Hrun;
    [|vm_compute in Hrun; discriminate Hrun].
  assert (out !! 4 = Some (Callback (Ack_sent true 5))) as Hack.
  { vm_compute in Hrun. by injection Hrun as <- <-. }
  exists s, out. split; [reflexivity|]. split; [exact Hack|].
  apply (acks_report_success talking_run init s out (Ack_sent true 5) Hrun).
  apply (list_elem_of_lookup_2 out 4). exact Hack.
Defined.

Lemma load_more_repeats_newest_page_witness :
  ∃ ev more,
    loadMoreMessages false true "general" = Some ev ∧
    handle talking (Input "sB" (at_ms 9) ev) =
      Return talking
        [Callback (Ack_loaded true (default [] (obj_get "general" (messages talking)))
                     more)].
Proof.
  destruct (obj_get "general" (messages talking)) as [log|] eqn:Hget;
    [|vm_compute in Hget; discriminate Hget].
  assert (length log = 1) as Hlen.
  { vm_compute in Hget. by injection Hget as <-. }
  destruct (load_more_repeats_newest_page talking "sB" (at_ms 9) "general" log
              [] Hget) as (ev & more & Hev & Hhandle & _).
  exists ev, more. split; [exact Hev|]. rewrite Hhandle. simpl.
  by rewrite last_n_all by lia.
Defined.

Lemma send_round_trip_witness :
  ∃ s' m,
    handle online (Input "sA" (at_ms 5) (sendMessage_request 3 "hello" "general")) =
      Return s' [Callback (Ack_sent true (id m));
                 SocketTo "general" (E_receive_message m)] ∧
    sendMessage_ack 3 true (id m)
        (sendMessage_local 3 "hello" "sA" "t" "general" []) =
      [View (id m) (Pending "hello" "sA" "t" "general") (Some "delivered")
         None None].
Proof.
  destruct (send_round_trip online "sA" (at_ms 5) 3 "hello" "t" "general" [] [])
    as (s' & m & Hsend & _ & _ & Hack & _).
  - vm_compute. reflexivity.
  - discriminate.
  - exists s', m. split; [exact Hsend|exact Hack].
Defined.

Lemma reaction_moves_both_counts_witness :
  ∃ m' v',
    react 5 "thumbsup" hello =
      (m', [IoEmit (E_reaction_added 5 "thumbsup" (Own (Num 1)))]) ∧
    onReactionAdded 5 "thumbsup" (Own (Num 1)) [view_of hello] = [v'] ∧
    view_count "thumbsup" v' = 1%Z.
Proof.
  destruct (reaction_moves_both_counts 5 "thumbsup" hello (view_of hello) [] [])
    as (m' & c & v' & Hreact & Hclient & _ & _ & _ & _ & _ & Hordinary & _).
  - reflexivity.
  - constructor.
  - destruct Hordinary as (Hc & _ & Hcount).
    + exact thumbsup_ordinary.
    + vm_compute in Hc. subst c. exists m', v'.
      split; [exact Hreact|]. split; [exact Hclient|].
      rewrite Hcount; [vm_compute; reflexivity|discriminate].
Defined.

Lemma receipt_keeps_readers_in_step_witness :
  ∃ m' v',
    read 5 "bob" hello = (m', [IoEmit (E_message_read 5 "bob")]) ∧
    onMessageRead 5 "bob" [view_of hello] = [v'] ∧
    view_readBy v' = Some ["bob"].
Proof.
  destruct (receipt_keeps_readers_in_step 5 "bob" hello (view_of hello))
    as [_ Hfirst].
  - reflexivity.
  - reflexivity.
  - destruct Hfirst as (m' & v' & Hread & Hclient & _ & Hview & _).
    + apply not_elem_of_nil.
    + exists m', v'. split; [exact Hread|]. split; [exact Hclient|exact Hview].
Defined.

(** Three reactions to [alice]'s message: the counts 1, 2, 3. *)
Lemma add_reaction_ordinary_counts_witness :
  ∃ s',
    run talking three_reactions =
      Some (s', [IoEmit (E_reaction_added 5 "thumbsup" (Own (Num 1)));
                 IoEmit (E_reaction_added 5 "thumbsup" (Own (Num 2)));
                 IoEmit (E_reaction_added 5 "thumbsup" (Own (Num 3)))]).
Proof.
  destruct (add_reaction_ordinary_counts talking 5 "thumbsup" three_reactions)
    as [Hcounts _].
  - repeat (apply List.Forall_cons;
            [split; [reflexivity|eexists; vm_compute; reflexivity]|]).
    apply List.Forall_nil.
  - destruct (Hcounts thumbsup_ordinary talking_present)
      as (p & i & m & s' & m' & Hloc & Hrun & _).
    vm_compute in Hloc. injection Hloc as <- <- <-.
    exists s'. rewrite Hrun. vm_compute. reflexivity.
Defined.
